(** * The pipeline orchestrator of [frontend/src/App.js]

    A shallow embedding of the [YoutubePipeline] component: its React state,
    the Socket.IO event handlers installed by the mount effect, and the
    command callbacks ([executeStage], [startFullPipeline], [shutdownAll],
    [stopExecution], [handleInputSubmit], [clearLogs]).

    Modelling conventions.
    - Every React state cell is a field of [State]; a [setX] call is a
      record update, applied in program order (all updates to one cell in
      the source go through setters, and each callback is taken to close
      over the state of the latest render).
    - The socket is either absent ([socket = false], the [null] of
      [useState(null)]) or present; the messages handed to [socket.emit]
      are accumulated in [emitted].  The component keeps no record of
      whether the channel is connected, and neither does [State].
    - [executionStates] is a JS object used as a map: its own entries are
      kept as an association list in enumeration order.  A fresh key is
      appended; theorems that depend on the enumeration order quantify
      over it.  Keys are taken not to name members of [Object.prototype].
    - Strings are sequences of code units below 256; [timestamp],
      [hoveredStage] and the icons play no role in the callbacks and are
      left out.
    - [await] is modelled by defunctionalising the continuation of the
      [for] loop of [startFullPipeline]: an observer carries the stage it
      waits for and the stages still to run; resolving a promise enqueues
      the continuation as a microtask, and microtasks run to completion
      after every callback.  Each received event and each user action is
      a turn of its own.
    - The ordered group of the catalog is a parameter of the transition
      system; [pipelineStages] is the one compiled into the component. *)

From Stdlib Require Import String Ascii List ZArith Lia Bool Permutation Arith.
From Stdlib Require Import DecimalString.
Import ListNotations.
Open Scope Z_scope.
Open Scope string_scope.

(** ** Stage catalog *)

Record Stage := mkStage { id : string; name : string; file : string }.

Definition mainStages : list Stage :=
  [ mkStage "create-profile" "Create Profile" "profile_generator.py";
    mkStage "channel-info" "Channel Info" "channel_info.py";
    mkStage "clean-base" "Clean Base" "clean_bases.py" ].

Definition pipelineStages : list Stage :=
  [ mkStage "get-scripts" "Get Scripts" "get_scripts.py";
    mkStage "srt-generator" "SRT Generator" "srt_generator.py";
    mkStage "image-suggestions" "Image Suggestions" "suggestion_generator.py";
    mkStage "image-generator" "Image Generator" "image_generator.py";
    mkStage "image-render" "Image Render" "make_and_render.py" ].

(** ** Execution states and the store *)

Inductive Status := idle | running | completed | error | stopped.

Definition Status_eqb (a b : Status) : bool :=
  match a, b with
  | idle, idle | running, running | completed, completed
  | error, error | stopped, stopped => true
  | _, _ => false
  end.

Record ExecutionState := mkES { progress : Z; status : Status }.

(** A JS object with string keys: own entries in enumeration order. *)
Definition Store := list (string * ExecutionState).

(** [prev[k]] *)
Fixpoint obj_get (o : Store) (k : string) : option ExecutionState :=
  match o with
  | [] => None
  | (k', v) :: o' => if String.eqb k k' then Some v else obj_get o' k
  end.

(** [{...prev, [k]: v}] and [next[k] = v] on a copy: an existing key keeps
    its position, a new key goes last. *)
Fixpoint obj_set (o : Store) (k : string) (v : ExecutionState) : Store :=
  match o with
  | [] => [(k, v)]
  | (k', v') :: o' =>
      if String.eqb k k' then (k', v) :: o' else (k', v') :: obj_set o' k v
  end.

(** ** Logs, messages, events *)

Record LogEntry := mkLog { message : string; type : string }.

(** Arguments of [socket.emit]. *)
Inductive OutMsg :=
| execute_stage (stage_id script_file : string)
| send_input (stage_id input : string)
| stop_stage (stage_id : string).

(** Payload of [execution_complete]. *)
Record CompleteData := mkComplete { cd_stage_id : string; cd_status : string }.

(** Events received on the socket, with the payload fields the handlers
    read. *)
Inductive InEvent :=
| connected
| script_output (stage_id output type : string)
| request_input (stage_id prompt : string)
| execution_started (stage_id : string)
| execution_complete (data : CompleteData)
| execution_error (stage_id error : string)
| input_sent (input : string).

(** ** Promises and observers *)

(** The [handleComplete] closure created by one call of
    [executeStageAndWait]: the promise it resolves, the [stage] it closes
    over, and what the awaiting loop still has to run. *)
Record Observer := mkObserver {
  obs_promise : nat;
  obs_stage : Stage;
  obs_rest : list Stage }.

(** A resumption of [startFullPipeline] after its [await]: the value the
    promise was resolved with, the loop variable, the remaining stages. *)
Record Job := mkJob {
  job_result : CompleteData;
  job_stage : Stage;
  job_rest : list Stage }.

(** ** Component state *)

Record State := mkState {
  selectedStage : option string;
  logs : list LogEntry;
  executionStates : Store;
  currentInput : string;
  waitingForInput : option string;
  socket : bool;
  isAutoRunning : bool;
  (* the socket's side of the world *)
  emitted : list OutMsg;
  completeListeners : list Observer;
  (* promises *)
  microtasks : list Job;
  resolved : list nat;
  nextPromise : nat }.

Definition initialState : State :=
  mkState None [] [] "" None false false [] [] [] [] 0.

(** Setters, one per cell. *)
Definition setSelectedStage (v : option string) (s : State) : State :=
  mkState v (logs s) (executionStates s) (currentInput s) (waitingForInput s)
    (socket s) (isAutoRunning s) (emitted s) (completeListeners s)
    (microtasks s) (resolved s) (nextPromise s).

Definition setLogs (f : list LogEntry -> list LogEntry) (s : State) : State :=
  mkState (selectedStage s) (f (logs s)) (executionStates s) (currentInput s)
    (waitingForInput s) (socket s) (isAutoRunning s) (emitted s)
    (completeListeners s) (microtasks s) (resolved s) (nextPromise s).

Definition setExecutionStates (f : Store -> Store) (s : State) : State :=
  mkState (selectedStage s) (logs s) (f (executionStates s)) (currentInput s)
    (waitingForInput s) (socket s) (isAutoRunning s) (emitted s)
    (completeListeners s) (microtasks s) (resolved s) (nextPromise s).

Definition setCurrentInput (v : string) (s : State) : State :=
  mkState (selectedStage s) (logs s) (executionStates s) v
    (waitingForInput s) (socket s) (isAutoRunning s) (emitted s)
    (completeListeners s) (microtasks s) (resolved s) (nextPromise s).

Definition setWaitingForInput (v : option string) (s : State) : State :=
  mkState (selectedStage s) (logs s) (executionStates s) (currentInput s)
    v (socket s) (isAutoRunning s) (emitted s)
    (completeListeners s) (microtasks s) (resolved s) (nextPromise s).

Definition setSocket (v : bool) (s : State) : State :=
  mkState (selectedStage s) (logs s) (executionStates s) (currentInput s)
    (waitingForInput s) v (isAutoRunning s) (emitted s)
    (completeListeners s) (microtasks s) (resolved s) (nextPromise s).

Definition setIsAutoRunning (v : bool) (s : State) : State :=
  mkState (selectedStage s) (logs s) (executionStates s) (currentInput s)
    (waitingForInput s) (socket s) v (emitted s)
    (completeListeners s) (microtasks s) (resolved s) (nextPromise s).

(** [socket.emit(...)] *)
Definition socket_emit (m : OutMsg) (s : State) : State :=
  mkState (selectedStage s) (logs s) (executionStates s) (currentInput s)
    (waitingForInput s) (socket s) (isAutoRunning s) (emitted s ++ [m])
    (completeListeners s) (microtasks s) (resolved s) (nextPromise s).

(** [new Promise(...)]: the promise gets the next free identity. *)
Definition newPromise (s : State) : State :=
  mkState (selectedStage s) (logs s) (executionStates s) (currentInput s)
    (waitingForInput s) (socket s) (isAutoRunning s) (emitted s)
    (completeListeners s) (microtasks s) (resolved s) (S (nextPromise s)).

(** [socket.on('execution_complete', handleComplete)] for the closure
    that resolves promise [p]. *)
Definition socket_on (p : nat) (st : Stage) (rest : list Stage) (s : State)
  : State :=
  mkState (selectedStage s) (logs s) (executionStates s) (currentInput s)
    (waitingForInput s) (socket s) (isAutoRunning s) (emitted s)
    (completeListeners s ++ [mkObserver p st rest])
    (microtasks s) (resolved s) (nextPromise s).

Fixpoint remove_listener (p : nat) (l : list Observer) : list Observer :=
  match l with
  | [] => []
  | o :: l' => if Nat.eqb (obs_promise o) p then l' else o :: remove_listener p l'
  end.

(** [socket.off('execution_complete', handleComplete)]: the first
    registration of that very closure is dropped. *)
Definition socket_off (o : Observer) (s : State) : State :=
  mkState (selectedStage s) (logs s) (executionStates s) (currentInput s)
    (waitingForInput s) (socket s) (isAutoRunning s) (emitted s)
    (remove_listener (obs_promise o) (completeListeners s))
    (microtasks s) (resolved s) (nextPromise s).

(** [resolve(data)] of promise [p]: the call is recorded and the awaiting
    continuation is queued. *)
Definition resolve (p : nat) (j : Job) (s : State) : State :=
  mkState (selectedStage s) (logs s) (executionStates s) (currentInput s)
    (waitingForInput s) (socket s) (isAutoRunning s) (emitted s)
    (completeListeners s) (microtasks s ++ [j]) (resolved s ++ [p])
    (nextPromise s).

Definition take_microtasks (s : State) : State :=
  mkState (selectedStage s) (logs s) (executionStates s) (currentInput s)
    (waitingForInput s) (socket s) (isAutoRunning s) (emitted s)
    (completeListeners s) [] (resolved s) (nextPromise s).

(** ** Commands *)

Definition Cmd := State -> State.

Definition andThen (c1 c2 : Cmd) : Cmd := fun s => c2 (c1 s).
Notation "c1 ;; c2" := (andThen c1 c2) (at level 61, right associativity).

(** JS truthiness of a [string | null] cell. *)
Definition truthy (v : option string) : bool :=
  match v with
  | Some x => negb (x =? "")
  | None => false
  end.

(** Template interpolation of a length. *)
Definition show_nat (n : nat) : string :=
  NilEmpty.string_of_uint (Nat.to_uint n).

(** [String.prototype.trim] on code units below 256: TAB, LF, VT, FF, CR,
    SP and NBSP are stripped from both ends. *)
Definition is_white_space (c : ascii) : bool :=
  existsb (Nat.eqb (nat_of_ascii c)) [9; 10; 11; 12; 13; 32; 160]%nat.

Fixpoint trimStart (t : string) : string :=
  match t with
  | EmptyString => EmptyString
  | String c t' => if is_white_space c then trimStart t' else t
  end.

Fixpoint trimEnd (t : string) : string :=
  match t with
  | EmptyString => EmptyString
  | String c t' =>
      let r := trimEnd t' in
      if is_white_space c && (r =? "") then EmptyString else String c r
  end.

Definition trim (t : string) : string := trimEnd (trimStart t).

Fixpoint whitespace_only (t : string) : bool :=
  match t with
  | EmptyString => true
  | String c t' => is_white_space c && whitespace_only t'
  end.

(** [addLog(message, type)] *)
Definition addLog (message type : string) : Cmd :=
  setLogs (fun prev => (prev ++ [mkLog message type])%list).

(** [prev[stageId] || { progress: 0, status: 'idle' }] *)
Definition orIdle (e : option ExecutionState) : ExecutionState :=
  match e with
  | Some c => c
  | None => mkES 0 idle
  end.

(** [updateProgress(stageId, status)] *)
Definition updateProgress (stageId : string) (status : Status) : Cmd :=
  setExecutionStates (fun prev =>
    let current := orIdle (obj_get prev stageId) in
    let newProgress := Z.min (progress current + 5) 95 in
    obj_set prev stageId (mkES newProgress status)).

(** [executeStage(stage)] *)
Definition executeStage (stage : Stage) : Cmd := fun s =>
  if negb (socket s) then addLog "Not connected to backend" "error" s
  else
    (setSelectedStage (Some (id stage)) ;;
     socket_emit (execute_stage (id stage) (file stage))) s.

(** [executeStageAndWait(stage)], with [rest] the stages the awaiting loop
    runs afterwards. *)
Definition executeStageAndWait (stage : Stage) (rest : list Stage) : Cmd :=
  fun s =>
  let p := nextPromise s in
  if negb (socket s) then
    (newPromise ;;
     addLog "Not connected to backend" "error" ;;
     resolve p (mkJob (mkComplete (id stage) "error") stage rest)) s
  else
    (newPromise ;;
     socket_on p stage rest ;;
     executeStage stage) s.

(** The [for] loop of [startFullPipeline] from its head up to the next
    [await] (or to the end of the function). *)
Definition pipeline_loop (stages : list Stage) : Cmd :=
  match stages with
  | stage :: rest =>
      setSelectedStage (Some (id stage)) ;; executeStageAndWait stage rest
  | [] =>
      addLog "Pipeline completed successfully!" "success" ;;
      setIsAutoRunning false
  end.

(** What follows [await executeStageAndWait(stage)] once [result] is
    there. *)
Definition resume (j : Job) : Cmd :=
  if negb (cd_status (job_result j) =? "success") then
    addLog ("Pipeline halted at " ++ name (job_stage j)) "error" ;;
    setIsAutoRunning false
  else pipeline_loop (job_rest j).

(** One pass over the microtask queue; jobs queued meanwhile wait for
    the next pass. *)
Definition run_queue : Cmd := fun s =>
  fold_left (fun s' j => resume j s') (microtasks s) (take_microtasks s).

(** Microtasks run until the queue is empty.  A resumption queues at most
    one further job, and only one that stops the loop, so two passes
    drain the queue ([run_microtasks_drained]). *)
Definition run_microtasks : Cmd := run_queue ;; run_queue.

(** The [status] computed by the [execution_complete] handler from
    [data.status]. *)
Definition terminal_status (outcome : string) : Status :=
  if outcome =? "success" then completed
  else if outcome =? "stopped" then stopped
  else error.

Section Orchestrator.

(** The ordered group of the catalog. *)
Variable pipeline : list Stage.

(** [startFullPipeline()] up to its first [await]. *)
Definition startFullPipeline : Cmd := fun s =>
  if negb (socket s) then addLog "Not connected to backend" "error" s
  else if isAutoRunning s then s
  else
    (setIsAutoRunning true ;;
     addLog "Starting full pipeline..." "system" ;;
     pipeline_loop pipeline) s.

(** [runningIds] of [shutdownAll]. *)
Definition runningIds (es : Store) : list string :=
  map fst (filter (fun e => Status_eqb (status (snd e)) running) es).

(** [shutdownAll()] *)
Definition shutdownAll : Cmd := fun s =>
  if negb (socket s) then s
  else
    let ids := runningIds (executionStates s) in
    if (length ids =? 0)%nat then
      addLog "No running stages to stop." "system" s
    else
      ((fun s0 => fold_left (fun s' i => socket_emit (stop_stage i) s') ids s0) ;;
       addLog ("Shutdown requested for " ++ show_nat (length ids) ++ " stage(s).")
              "system" ;;
       setWaitingForInput None ;;
       setIsAutoRunning false ;;
       setExecutionStates (fun prev =>
         fold_left (fun next i => obj_set next i (mkES 0 stopped)) ids prev)) s.

(** [handleInputSubmit(e)] *)
Definition handleInputSubmit : Cmd := fun s =>
  if negb (trim (currentInput s) =? "") && socket s
     && truthy (waitingForInput s) then
    match waitingForInput s with
    | Some w =>
        (socket_emit (send_input w (trim (currentInput s))) ;;
         setCurrentInput "" ;;
         setWaitingForInput None) s
    | None => s
    end
  else s.

(** [clearLogs()] *)
Definition clearLogs : Cmd :=
  setLogs (fun _ => []) ;; setExecutionStates (fun _ => []).

(** [stopExecution()] *)
Definition stopExecution : Cmd := fun s =>
  if negb (socket s) || negb (truthy (selectedStage s)) then s
  else
    match selectedStage s with
    | Some sel =>
        (socket_emit (stop_stage sel) ;;
         addLog "Stop requested..." "system" ;;
         setLogs (fun _ => []) ;;
         setWaitingForInput None ;;
         setExecutionStates (fun prev => obj_set prev sel (mkES 0 stopped))) s
    | None => s
    end.

(** *** Socket handlers installed by the mount effect *)

Definition on_connected : Cmd := addLog "Connected to backend" "system".

Definition on_script_output (stage_id output type : string) : Cmd :=
  addLog output type ;; updateProgress stage_id running.

Definition on_request_input (stage_id prompt : string) : Cmd :=
  addLog prompt "input" ;; setWaitingForInput (Some stage_id).

Definition on_execution_started (stage_id : string) : Cmd :=
  addLog ("Starting execution of " ++ stage_id ++ "...") "system" ;;
  setExecutionStates (fun prev => obj_set prev stage_id (mkES 0 running)).

Definition on_execution_complete (data : CompleteData) : Cmd :=
  let status := terminal_status (cd_status data) in
  setExecutionStates (fun prev =>
    obj_set prev (cd_stage_id data) (mkES 100 status)) ;;
  addLog ("Execution " ++
          (if cd_status data =? "success" then "completed successfully"
           else "failed") ++ "!")
         (if cd_status data =? "success" then "success" else "error").

Definition on_execution_error (stage_id err : string) : Cmd :=
  addLog ("Error: " ++ err) "error" ;;
  setExecutionStates (fun prev => obj_set prev stage_id (mkES 0 error)).

Definition on_input_sent (input : string) : Cmd :=
  addLog ("> " ++ input) "user".

(** The closure [handleComplete] of [executeStageAndWait]. *)
Definition handleComplete (o : Observer) (data : CompleteData) : Cmd := fun s =>
  if negb (cd_stage_id data =? id (obs_stage o)) then s
  else
    (socket_off o ;;
     resolve (obs_promise o) (mkJob data (obs_stage o) (obs_rest o))) s.

(** Delivery of one event: the permanent handler first, then, for
    [execution_complete], the observers registered at that moment, in
    registration order. *)
Definition deliver (e : InEvent) : Cmd :=
  match e with
  | connected => on_connected
  | script_output i o t => on_script_output i o t
  | request_input i p => on_request_input i p
  | execution_started i => on_execution_started i
  | execution_complete d =>
      fun s =>
        fold_left (fun s' o => handleComplete o d s') (completeListeners s)
                  (on_execution_complete d s)
  | execution_error i m => on_execution_error i m
  | input_sent t => on_input_sent t
  end.

(** ** The component as a transition system *)

Inductive Action :=
| Mount                                   (* the mount effect: [setSocket(newSocket)] *)
| Change (text : string)                  (* [onChange] of the input field *)
| Submit                                  (* [onSubmit] of the input form *)
| ClickStage (stage : Stage)              (* a sidebar button *)
| ClickStartAll
| ClickShutdownAll
| ClickStop
| ClickClear
| Receive (e : InEvent).

Definition perform (a : Action) : Cmd :=
  match a with
  | Mount => setSocket true
  | Change text => setCurrentInput text
  | Submit => handleInputSubmit
  | ClickStage stage => executeStage stage
  | ClickStartAll => startFullPipeline
  | ClickShutdownAll => shutdownAll
  | ClickStop => stopExecution
  | ClickClear => clearLogs
  | Receive e => deliver e
  end.

(** One turn of the event loop: the callback, then the microtasks. *)
Definition step (a : Action) : Cmd := perform a ;; run_microtasks.

Definition run (tr : list Action) (s : State) : State :=
  fold_left (fun s' a => step a s') tr s.

End Orchestrator.

(** ** Values computed at render *)

(** [getLogColor(type)] *)
Definition getLogColor (type : string) : string :=
  if type =? "error" then "#f87171"
  else if type =? "success" then "#34d399"
  else if type =? "system" then "#60a5fa"
  else if type =? "input" then "#fbbf24"
  else if type =? "user" then "#22d3ee"
  else "#d1d5db".

(** [executionStates[k]?.status === st] *)
Definition status_is (es : Store) (k : string) (st : Status) : bool :=
  match obj_get es k with
  | Some e => Status_eqb (status e) st
  | None => false
  end.

(** [anyRunning]: [Object.values(executionStates).some(...)] *)
Definition anyRunning (s : State) : bool :=
  existsb (fun e => Status_eqb (status e) running) (map snd (executionStates s)).

(** The [disabled] attribute of "Start All", "Shutdown All" and "Stop". *)
Definition startAll_disabled (s : State) : bool :=
  negb (socket s) || isAutoRunning s || anyRunning s.

Definition shutdownAll_disabled (s : State) : bool := negb (anyRunning s).

Definition stop_disabled (s : State) : bool :=
  negb (truthy (selectedStage s))
  || negb (match selectedStage s with
           | Some sel => status_is (executionStates s) sel running
           | None => false
           end).

(** [StageItem]: the sidebar button is disabled while the stage is
    running; the progress bar is drawn, with [progress] percent as its
    width, for a running entry with positive progress; the check mark for
    a completed one. *)
Definition stageButton_disabled (s : State) (stage : Stage) : bool :=
  status_is (executionStates s) (id stage) running.

Definition progressBar (s : State) (stage : Stage) : option Z :=
  match obj_get (executionStates s) (id stage) with
  | Some e =>
      if (0 <? progress e)%Z && Status_eqb (status e) running
      then Some (progress e) else None
  | None => None
  end.

Definition checkmark (s : State) (stage : Stage) : bool :=
  status_is (executionStates s) (id stage) completed.

(** * Vocabulary of the statements *)

(** A job whose resumption leaves the loop. *)
Definition halting (j : Job) : bool := negb (cd_status (job_result j) =? "success").

(** [n] output events for one stage, and the progress of a stage. *)
Fixpoint outputs (i : string) (lines : list (string * string)) : list Action :=
  match lines with
  | [] => []
  | (out, ty) :: lines' => Receive (script_output i out ty) :: outputs i lines'
  end.

Definition progress_at (s : State) (i : string) : Z :=
  progress (orIdle (obj_get (executionStates s) i)).

(** Identities of the registered observers. *)
Definition listening (s : State) : list nat :=
  map obs_promise (completeListeners s).

(** Promise identities are allocated in increasing order; every observer
    registered is registered once, and for a promise not yet resolved;
    no promise is resolved twice. *)
Record Inv (s : State) : Prop := mkInv {
  inv_listening_nodup : NoDup (listening s);
  inv_listening_bound : forall p, In p (listening s) -> (p < nextPromise s)%nat;
  inv_resolved_bound : forall p, In p (resolved s) -> (p < nextPromise s)%nat;
  inv_resolved_nodup : NoDup (resolved s);
  inv_pending : forall p, In p (listening s) -> ~ In p (resolved s) }.

(** The test of [handleComplete]. *)
Definition matches (d : CompleteData) (o : Observer) : bool :=
  cd_stage_id d =? id (obs_stage o).

Definition job_of (d : CompleteData) (o : Observer) : Job :=
  mkJob d (obs_stage o) (obs_rest o).

(** Only [startFullPipeline] and the delivery of [execution_complete]
    touch the promise cells. *)
Definition promise_free (a : Action) : bool :=
  match a with
  | ClickStartAll | Receive (execution_complete _) => false
  | _ => true
  end.

(** Events a stage sends before its terminal event (and the channel-wide
    ones). *)
Definition nonterminal_for (i : string) (e : InEvent) : bool :=
  match e with
  | connected => true
  | script_output j _ _ => j =? i
  | request_input j _ => j =? i
  | execution_started j => j =? i
  | input_sent _ => true
  | execution_complete _ => false
  | execution_error _ _ => false
  end.

Record same_run (s s' : State) : Prop := mkSameRun {
  sr_emitted : emitted s' = emitted s;
  sr_listeners : completeListeners s' = completeListeners s;
  sr_microtasks : microtasks s' = microtasks s;
  sr_socket : socket s' = socket s;
  sr_auto : isAutoRunning s' = isAutoRunning s;
  sr_next : nextPromise s' = nextPromise s;
  sr_resolved : resolved s' = resolved s }.

(** What the data model asks of a stored entry. *)
Definition entry_ok (e : ExecutionState) : Prop :=
  0 <= progress e <= 100
  /\ (progress e = 100 <-> status e = completed)
  /\ (status e = idle \/ status e = stopped \/ status e = error -> progress e = 0).

Definition store_ok (es : Store) : Prop :=
  forall k e, obj_get es k = Some e -> entry_ok e.

(** Turns other than the receipt of an [execution_complete] whose outcome
    is not success. *)
Definition benign (a : Action) : bool :=
  match a with
  | Receive (execution_complete d) => cd_status d =? "success"
  | _ => true
  end.

(** The entry the permanent handler of an event appends to the log. *)
Definition log_of (e : InEvent) : LogEntry :=
  match e with
  | connected => mkLog "Connected to backend" "system"
  | script_output _ out ty => mkLog out ty
  | request_input _ prompt => mkLog prompt "input"
  | execution_started i => mkLog ("Starting execution of " ++ i ++ "...") "system"
  | execution_complete d =>
      if cd_status d =? "success"
      then mkLog "Execution completed successfully!" "success"
      else mkLog "Execution failed!" "error"
  | execution_error _ m => mkLog ("Error: " ++ m) "error"
  | input_sent t => mkLog ("> " ++ t) "user"
  end.

(** The stage an event speaks about. *)
Definition event_stage (e : InEvent) : option string :=
  match e with
  | connected | input_sent _ => None
  | script_output i _ _ | request_input i _ | execution_started i
  | execution_error i _ => Some i
  | execution_complete d => Some (cd_stage_id d)
  end.

(** A text with no white space at either end. *)
Definition starts_clean (t : string) : bool :=
  match t with
  | EmptyString => true
  | String c _ => negb (is_white_space c)
  end.

Fixpoint ends_clean (t : string) : bool :=
  match t with
  | EmptyString => true
  | String c EmptyString => negb (is_white_space c)
  | String _ t' => ends_clean t'
  end.

(** What a [send_input] message may look like. *)
Definition send_ok (m : OutMsg) : bool :=
  match m with
  | send_input i t =>
      negb (i =? "") && negb (t =? "") && starts_clean t && ends_clean t
  | _ => true
  end.

(** The events of a stage that runs to success, and a run of the whole
    pipeline in which every stage does. *)
Definition stage_run (r : Stage * list InEvent) : list Action :=
  (map Receive (snd r)
   ++ [Receive (execution_complete (mkComplete (id (fst r)) "success"))])%list.

Definition well_behaved (r : Stage * list InEvent) : bool :=
  forallb (nonterminal_for (id (fst r))) (snd r).

Definition execute_of (st : Stage) : OutMsg := execute_stage (id st) (file st).

(** Entries the handlers can write (whatever the outcome of a
    completion). *)
Definition entry_written (e : ExecutionState) : Prop :=
  match status e with
  | idle => False
  | running => 0 <= progress e <= 95
  | completed => progress e = 100
  | error | stopped => progress e = 0 \/ progress e = 100
  end
  /\ (progress e mod 5 = 0).

(** The store of a reachable state: one entry per key, each one written
    by a handler. *)
Definition store_written (es : Store) : Prop :=
  NoDup (map fst es) /\ Forall (fun kv => entry_written (snd kv)) es.

(** An event that resumes some awaiting run: an [execution_complete]
    for a stage an observer is registered for. *)
Definition wakes (s : State) (e : InEvent) : bool :=
  match e with
  | execution_complete d => existsb (matches d) (completeListeners s)
  | _ => false
  end.

(** [s'] has emitted what [s] had, and then only messages of the right
    shape, none at all if [s] has no socket. *)
Definition emits_ok (s s' : State) : Prop :=
  exists new,
    emitted s' = (emitted s ++ new)%list
    /\ forallb send_ok new = true
    /\ (socket s = false -> new = []).

(** The guard is only set while some stage is awaited, on a socket. *)
Definition guard_inv (s : State) : Prop :=
  (completeListeners s <> [] -> socket s = true)
  /\ (isAutoRunning s = true -> completeListeners s <> []).

(** * Properties *)

(** ** The store *)

Lemma obj_get_set_eq (o : Store) (k : string) (v : ExecutionState) :
  obj_get (obj_set o k v) k = Some v.
Proof.
  induction o as [|[k' v'] o IH]; simpl.
  - now rewrite String.eqb_refl.
  - destruct (String.eqb k k') eqn:E; simpl; rewrite E; auto.
Qed.

Lemma obj_get_set_neq (o : Store) (k k' : string) (v : ExecutionState) :
  k <> k' -> obj_get (obj_set o k v) k' = obj_get o k'.
Proof.
  intros Hne. induction o as [|[k0 v0] o IH]; simpl.
  - destruct (String.eqb k' k) eqn:E; auto.
    apply String.eqb_eq in E. congruence.
  - destruct (String.eqb k k0) eqn:E; simpl.
    + apply String.eqb_eq in E. subst k0.
      destruct (String.eqb k' k) eqn:E'; auto.
      apply String.eqb_eq in E'. congruence.
    + now rewrite IH.
Qed.

Lemma obj_get_set (o : Store) (k k' : string) (v : ExecutionState) :
  obj_get (obj_set o k v) k' = if String.eqb k k' then Some v else obj_get o k'.
Proof.
  destruct (String.eqb k k') eqn:E.
  - apply String.eqb_eq in E. subst. apply obj_get_set_eq.
  - apply String.eqb_neq in E. now apply obj_get_set_neq.
Qed.

Lemma obj_get_set_all (ids : list string) (v : ExecutionState) :
  forall (o : Store) (k : string),
    obj_get (fold_left (fun next i => obj_set next i v) ids o) k
    = if existsb (String.eqb k) ids then Some v else obj_get o k.
Proof.
  induction ids as [|i ids IH]; intros o k; simpl; auto.
  rewrite IH, obj_get_set, (String.eqb_sym k i).
  destruct (String.eqb i k); simpl; destruct (existsb (String.eqb k) ids); auto.
Qed.

Lemma obj_get_In (o : Store) (k : string) (v : ExecutionState) :
  NoDup (map fst o) -> In (k, v) o -> obj_get o k = Some v.
Proof.
  induction o as [|[k0 v0] o IH]; simpl; intros Hnd Hin; [contradiction|].
  inversion Hnd as [|? ? Hnotin Hnd']; subst.
  destruct Hin as [Heq|Hin].
  - inversion Heq; subst. now rewrite String.eqb_refl.
  - destruct (String.eqb k k0) eqn:E; auto.
    apply String.eqb_eq in E. subst k0.
    exfalso. apply Hnotin. change k with (fst (k, v)). now apply in_map.
Qed.

(** ** Frame lemmas for the basic commands *)

Lemma state_eta (s : State) :
  mkState (selectedStage s) (logs s) (executionStates s) (currentInput s)
    (waitingForInput s) (socket s) (isAutoRunning s) (emitted s)
    (completeListeners s) (microtasks s) (resolved s) (nextPromise s) = s.
Proof. now destruct s. Qed.

Lemma take_microtasks_id (s : State) :
  microtasks s = [] -> take_microtasks s = s.
Proof. destruct s; simpl; intros ->; reflexivity. Qed.

Lemma emitted_stop_all (ids : list string) :
  forall s,
    let s' := fold_left (fun s0 i => socket_emit (stop_stage i) s0) ids s in
    emitted s' = (emitted s ++ map stop_stage ids)%list
    /\ selectedStage s' = selectedStage s /\ logs s' = logs s
    /\ executionStates s' = executionStates s
    /\ currentInput s' = currentInput s
    /\ waitingForInput s' = waitingForInput s
    /\ socket s' = socket s /\ isAutoRunning s' = isAutoRunning s
    /\ completeListeners s' = completeListeners s
    /\ microtasks s' = microtasks s /\ resolved s' = resolved s
    /\ nextPromise s' = nextPromise s.
Proof.
  induction ids as [|i ids IH]; intros s; simpl.
  - rewrite app_nil_r. repeat split.
  - specialize (IH (socket_emit (stop_stage i) s)). simpl in IH.
    destruct IH as (E & IH). rewrite E, <- app_assoc. simpl. split; auto.
Qed.

(** ** Whitespace *)

Lemma trimStart_whitespace_only (t : string) :
  whitespace_only t = true -> trimStart t = "".
Proof.
  induction t as [|c t IH]; simpl; auto.
  destruct (is_white_space c); simpl; auto. discriminate.
Qed.

Lemma trim_whitespace_only (t : string) :
  whitespace_only t = true -> trim t = "".
Proof. intros H. unfold trim. now rewrite trimStart_whitespace_only. Qed.

(** ** Microtasks *)

Lemma resume_frame (j : Job) (s : State) :
  executionStates (resume j s) = executionStates s
  /\ currentInput (resume j s) = currentInput s
  /\ waitingForInput (resume j s) = waitingForInput s
  /\ socket (resume j s) = socket s.
Proof.
  unfold resume, pipeline_loop, executeStageAndWait, executeStage, andThen.
  destruct (negb (cd_status (job_result j) =? "success")); simpl; auto.
  destruct (job_rest j) as [|st r]; simpl; auto.
  destruct (socket s) eqn:E; simpl; auto.
Qed.

Lemma resume_queue (j : Job) (s : State) :
  exists l, microtasks (resume j s) = (microtasks s ++ l)%list
            /\ forallb halting l = true
            /\ (halting j = true -> l = []).
Proof.
  unfold resume, pipeline_loop, executeStageAndWait, executeStage, andThen, halting.
  destruct (negb (cd_status (job_result j) =? "success")); simpl.
  - exists []. rewrite app_nil_r. auto.
  - destruct (job_rest j) as [|st r]; simpl.
    + exists []. rewrite app_nil_r. auto.
    + destruct (socket s); simpl.
      * exists []. rewrite app_nil_r. auto.
      * eexists. split; [reflexivity|]. split; [reflexivity|discriminate].
Qed.

Lemma fold_resume_frame {A : Type} (f : State -> A) :
  (forall j s, f (resume j s) = f s) ->
  forall js s, f (fold_left (fun s' j => resume j s') js s) = f s.
Proof.
  intros H js. induction js as [|j js IH]; intros s; simpl; auto.
  now rewrite IH, H.
Qed.

Lemma fold_resume_queue (js : list Job) :
  forall s,
    forallb halting (microtasks s) = true ->
    forallb halting (microtasks (fold_left (fun s' j => resume j s') js s)) = true
    /\ (forallb halting js = true ->
        microtasks (fold_left (fun s' j => resume j s') js s) = microtasks s).
Proof.
  induction js as [|j js IH]; intros s Hs; simpl; auto.
  destruct (resume_queue j s) as (l & El & Hl & Hj).
  assert (Hq : forallb halting (microtasks (resume j s)) = true).
  { rewrite El, forallb_app, Hs, Hl. reflexivity. }
  destruct (IH _ Hq) as [IH1 IH2]. split; auto.
  intros Hjs. apply andb_true_iff in Hjs as [Hj' Hjs].
  rewrite IH2, El, (Hj Hj'), app_nil_r; auto.
Qed.

(** The two passes of [run_microtasks] leave no job behind, whatever the
    state: the model does run the queue to exhaustion. *)
Lemma run_microtasks_drained (s : State) : microtasks (run_microtasks s) = [].
Proof.
  unfold run_microtasks, andThen, run_queue.
  set (s1 := fold_left _ (microtasks s) (take_microtasks s)).
  assert (H1 : forallb halting (microtasks s1) = true).
  { apply (fold_resume_queue (microtasks s) (take_microtasks s)). reflexivity. }
  destruct (fold_resume_queue (microtasks s1) (take_microtasks s1) eq_refl) as [_ H2].
  now rewrite H2.
Qed.

Lemma run_queue_id (s : State) : microtasks s = [] -> run_queue s = s.
Proof.
  intros H. unfold run_queue. rewrite H. simpl. now apply take_microtasks_id.
Qed.

Lemma run_microtasks_id (s : State) : microtasks s = [] -> run_microtasks s = s.
Proof.
  intros H. unfold run_microtasks, andThen.
  rewrite (run_queue_id s H). now apply run_queue_id.
Qed.

Lemma run_queue_frame (s : State) :
  executionStates (run_queue s) = executionStates s
  /\ currentInput (run_queue s) = currentInput s
  /\ waitingForInput (run_queue s) = waitingForInput s
  /\ socket (run_queue s) = socket s.
Proof.
  unfold run_queue. repeat split.
  - rewrite (fold_resume_frame executionStates); auto. intros; apply resume_frame.
  - rewrite (fold_resume_frame currentInput); auto. intros; apply resume_frame.
  - rewrite (fold_resume_frame waitingForInput); auto. intros; apply resume_frame.
  - rewrite (fold_resume_frame socket); auto. intros; apply resume_frame.
Qed.

Lemma run_microtasks_frame (s : State) :
  executionStates (run_microtasks s) = executionStates s
  /\ currentInput (run_microtasks s) = currentInput s
  /\ waitingForInput (run_microtasks s) = waitingForInput s
  /\ socket (run_microtasks s) = socket s.
Proof.
  unfold run_microtasks, andThen.
  destruct (run_queue_frame (run_queue s)) as (a & b & c & d).
  destruct (run_queue_frame s) as (a' & b' & c' & d').
  repeat split; congruence.
Qed.

Lemma pipeline_loop_frame (stages : list Stage) (s : State) :
  executionStates (pipeline_loop stages s) = executionStates s
  /\ currentInput (pipeline_loop stages s) = currentInput s
  /\ waitingForInput (pipeline_loop stages s) = waitingForInput s
  /\ socket (pipeline_loop stages s) = socket s.
Proof.
  unfold pipeline_loop, executeStageAndWait, executeStage, andThen.
  destruct stages as [|st r]; simpl; auto.
  destruct (socket s) eqn:E; simpl; auto.
Qed.

Lemma step_executionStates (pipeline : list Stage) (a : Action) (s : State) :
  executionStates (step pipeline a s) = executionStates (perform pipeline a s).
Proof. unfold step, andThen. apply run_microtasks_frame. Qed.

Lemma handleComplete_frame (o : Observer) (d : CompleteData) (s : State) :
  executionStates (handleComplete o d s) = executionStates s
  /\ logs (handleComplete o d s) = logs s
  /\ emitted (handleComplete o d s) = emitted s
  /\ socket (handleComplete o d s) = socket s
  /\ isAutoRunning (handleComplete o d s) = isAutoRunning s
  /\ selectedStage (handleComplete o d s) = selectedStage s
  /\ waitingForInput (handleComplete o d s) = waitingForInput s
  /\ currentInput (handleComplete o d s) = currentInput s
  /\ nextPromise (handleComplete o d s) = nextPromise s.
Proof.
  unfold handleComplete, andThen.
  destruct (negb (cd_stage_id d =? id (obs_stage o))); simpl; repeat split.
Qed.

Lemma fold_handleComplete_frame {A : Type} (f : State -> A) (d : CompleteData) :
  (forall o s, f (handleComplete o d s) = f s) ->
  forall os s, f (fold_left (fun s' o => handleComplete o d s') os s) = f s.
Proof.
  intros H os. induction os as [|o os IH]; intros s; simpl; auto.
  now rewrite IH, H.
Qed.

Lemma deliver_complete_executionStates (d : CompleteData) (s : State) :
  executionStates (deliver (execution_complete d) s)
  = executionStates (on_execution_complete d s).
Proof.
  simpl. apply (fold_handleComplete_frame executionStates).
  intros; apply handleComplete_frame.
Qed.

(** ** Guards of the command callbacks *)

(** C8. [startFullPipeline] called on a present socket while
    [isAutoRunning] is set returns at once: the whole state (execution
    states, logs, pending input, selection, guard, emitted messages,
    listeners) is unchanged, and so is the state after the turn when no
    microtask is pending. *)
Theorem startFullPipeline_guard_noop (pipeline : list Stage) (s : State) :
  socket s = true ->
  isAutoRunning s = true ->
  startFullPipeline pipeline s = s
  /\ (microtasks s = [] -> step pipeline ClickStartAll s = s).
Proof.
  intros Hsock Hauto.
  assert (E : startFullPipeline pipeline s = s).
  { unfold startFullPipeline. now rewrite Hsock, Hauto. }
  split; auto.
  intros Hq. unfold step, andThen. simpl. rewrite E. now apply run_microtasks_id.
Qed.

Lemma startFullPipeline_guard_noop_witness :
  let s := run pipelineStages [Mount; ClickStartAll] initialState in
  socket s = true /\ isAutoRunning s = true /\ emitted s <> []
  /\ startFullPipeline pipelineStages s = s
  /\ step pipelineStages ClickStartAll s = s.
Proof.
  intro s.
  split; [reflexivity|]. split; [reflexivity|]. split; [discriminate|].
  split.
  - exact (proj1 (startFullPipeline_guard_noop pipelineStages s eq_refl eq_refl)).
  - exact (proj2 (startFullPipeline_guard_noop pipelineStages s eq_refl eq_refl) eq_refl).
Defined.

(** C7. [handleInputSubmit] with an empty or whitespace-only
    [currentInput], or with no pending request, does nothing: the state is
    returned as it was, so nothing is emitted and [waitingForInput] keeps
    its value (a populated slot stays populated). *)
Theorem handleInputSubmit_noop (s : State) :
  whitespace_only (currentInput s) = true \/ waitingForInput s = None ->
  handleInputSubmit s = s
  /\ emitted (handleInputSubmit s) = emitted s
  /\ waitingForInput (handleInputSubmit s) = waitingForInput s.
Proof.
  intros H.
  assert (E : handleInputSubmit s = s).
  { unfold handleInputSubmit. destruct H as [H|H].
    - rewrite (trim_whitespace_only _ H). reflexivity.
    - rewrite H. simpl. now rewrite andb_false_r. }
  now rewrite E.
Qed.

Lemma handleInputSubmit_noop_witness :
  let s := run pipelineStages
             [Mount; Receive (request_input "get-scripts" "Channel name?");
              Change ""] initialState in
  let s0 := run pipelineStages [Mount; Change "ok"] initialState in
  (whitespace_only (currentInput s) = true
   /\ waitingForInput s = Some "get-scripts"
   /\ handleInputSubmit s = s
   /\ waitingForInput (handleInputSubmit s) = Some "get-scripts")
  /\ (waitingForInput s0 = None /\ emitted (handleInputSubmit s0) = []).
Proof.
  intros s s0. split.
  - split; [reflexivity|]. split; [reflexivity|]. split.
    + exact (proj1 (handleInputSubmit_noop s (or_introl eq_refl))).
    + exact (eq_trans (proj2 (proj2 (handleInputSubmit_noop s (or_introl eq_refl))))
                      eq_refl).
  - split; [reflexivity|].
    exact (eq_trans (proj1 (proj2 (handleInputSubmit_noop s0 (or_intror eq_refl))))
                    eq_refl).
Defined.

(** C6. [stopExecution] on a present socket with a selected stage (a
    non-empty id, as the guard tests truthiness) emits one [stop_stage]
    for it, leaves the log empty, clears
    [waitingForInput] and stores [stopped]/0 for that stage, all within
    the callback itself, before any event is received; the other entries
    of the store are kept. *)
Theorem stopExecution_effect (s : State) (sel : string) :
  socket s = true ->
  selectedStage s = Some sel ->
  sel <> "" ->
  let s' := stopExecution s in
  emitted s' = (emitted s ++ [stop_stage sel])%list
  /\ logs s' = []
  /\ waitingForInput s' = None
  /\ obj_get (executionStates s') sel = Some (mkES 0 stopped)
  /\ (forall k, k <> sel ->
        obj_get (executionStates s') k = obj_get (executionStates s) k)
  /\ isAutoRunning s' = isAutoRunning s
  /\ selectedStage s' = Some sel.
Proof.
  intros Hsock Hsel Hne s'. subst s'. unfold stopExecution.
  rewrite Hsock, Hsel. simpl.
  destruct (String.eqb_spec sel ""); [contradiction|]. simpl.
  unfold andThen. simpl. repeat split; auto.
  - apply obj_get_set_eq.
  - intros k Hk. apply obj_get_set_neq. congruence.
Qed.

Lemma stopExecution_effect_witness :
  let s := run pipelineStages
             [Mount; ClickStage (mkStage "channel-info" "Channel Info" "channel_info.py");
              Receive (execution_started "channel-info");
              Receive (request_input "channel-info" "Channel URL?")] initialState in
  socket s = true /\ selectedStage s = Some "channel-info"
  /\ logs s <> [] /\ waitingForInput s <> None
  /\ emitted (stopExecution s)
     = [execute_stage "channel-info" "channel_info.py"; stop_stage "channel-info"]
  /\ logs (stopExecution s) = []
  /\ waitingForInput (stopExecution s) = None
  /\ obj_get (executionStates (stopExecution s)) "channel-info"
     = Some (mkES 0 stopped).
Proof.
  intro s.
  assert (Hne : "channel-info" <> "") by discriminate.
  pose proof (stopExecution_effect s "channel-info" eq_refl eq_refl Hne) as H.
  cbv zeta in H. destruct H as (He & Hl & Hw & Hg & _).
  split; [reflexivity|]. split; [reflexivity|].
  split; [discriminate|]. split; [discriminate|].
  split; [exact He|]. split; [exact Hl|]. split; [exact Hw|exact Hg].
Defined.

(** C3, as the claim states it, fails.  The component keeps no record
    of the connection of the channel: the mount effect stores the socket
    as soon as it is created, no handler watches it disconnect, and the
    commands test [socket] only.  So the states of a mounted component
    are also its states while the channel is down, and there every
    command hands its message to [socket.emit] and none logs a failure:
    [executeStage] when nothing was ever received, and "Stop",
    "Shutdown All" and the input form, all three enabled, once a stage
    is running and has asked for input. *)
Lemma commands_on_mounted_socket_counterexample :
  let get_scripts := mkStage "get-scripts" "Get Scripts" "get_scripts.py" in
  let clean_base := mkStage "clean-base" "Clean Base" "clean_bases.py" in
  let s0 := run pipelineStages [Mount] initialState in
  let s := run pipelineStages
             [Mount; ClickStage get_scripts;
              Receive (execution_started "get-scripts");
              Receive (request_input "get-scripts" "Topic?");
              Change "cats"] initialState in
  let failure := mkLog "Not connected to backend" "error" in
  (emitted (step pipelineStages (ClickStage clean_base) s0)
   = [execute_stage "clean-base" "clean_bases.py"]
   /\ logs (step pipelineStages (ClickStage clean_base) s0) = [])
  /\ (stop_disabled s = false
      /\ emitted (step pipelineStages ClickStop s)
         = (emitted s ++ [stop_stage "get-scripts"])%list
      /\ logs (step pipelineStages ClickStop s) = [])
  /\ (shutdownAll_disabled s = false
      /\ emitted (step pipelineStages ClickShutdownAll s)
         = (emitted s ++ [stop_stage "get-scripts"])%list
      /\ ~ In failure (logs (step pipelineStages ClickShutdownAll s)))
  /\ (truthy (waitingForInput s) = true
      /\ emitted (step pipelineStages Submit s)
         = (emitted s ++ [send_input "get-scripts" "cats"])%list
      /\ logs (step pipelineStages Submit s) = logs s).
Proof.
  vm_compute. repeat split.
  intros [H|[H|[H|[]]]]; discriminate.
Qed.

(** C3 (amended). What the commands test is whether the socket object
    is there, which it is not only until the mount effect has stored it.
    With no socket object none of the four commands emits a message;
    [executeStage] appends the local error entry
    "Not connected to backend", while [stopExecution], [shutdownAll] and
    [handleInputSubmit] return the state unchanged. *)
Theorem disconnected_commands (s : State) (stage : Stage) :
  socket s = false ->
  executeStage stage s = addLog "Not connected to backend" "error" s
  /\ logs (executeStage stage s)
     = (logs s ++ [mkLog "Not connected to backend" "error"])%list
  /\ emitted (executeStage stage s) = emitted s
  /\ stopExecution s = s
  /\ shutdownAll s = s
  /\ handleInputSubmit s = s.
Proof.
  intros H.
  unfold executeStage, stopExecution, shutdownAll, handleInputSubmit.
  rewrite H. simpl. rewrite andb_false_r. simpl. repeat split.
Qed.

Lemma disconnected_commands_witness :
  let st := mkStage "clean-base" "Clean Base" "clean_bases.py" in
  socket initialState = false
  /\ logs (executeStage st initialState) = [mkLog "Not connected to backend" "error"]
  /\ emitted (executeStage st initialState) = []
  /\ shutdownAll initialState = initialState.
Proof.
  intro st.
  pose proof (disconnected_commands initialState st eq_refl)
    as (_ & Hl & He & _ & Hs & _).
  split; [reflexivity|]. split; [exact Hl|]. split; [exact He|exact Hs].
Defined.

(** ** Output events and the progress heuristic *)

Lemma script_output_entry (pipeline : list Stage) (s : State)
      (i out ty : string) :
  obj_get (executionStates (step pipeline (Receive (script_output i out ty)) s)) i
  = Some (mkES (Z.min (progress (orIdle (obj_get (executionStates s) i)) + 5) 95)
               running).
Proof.
  rewrite step_executionStates. simpl.
  unfold on_script_output, updateProgress, andThen. simpl.
  apply obj_get_set_eq.
Qed.

Lemma script_output_others (pipeline : list Stage) (s : State)
      (i out ty k : string) :
  i <> k ->
  obj_get (executionStates (step pipeline (Receive (script_output i out ty)) s)) k
  = obj_get (executionStates s) k.
Proof.
  intros H. rewrite step_executionStates. simpl.
  unfold on_script_output, updateProgress, andThen. simpl.
  now apply obj_get_set_neq.
Qed.

(** C10. An output event for a stage stores status [running] for it
    whatever was there before (an entry in any status, or none, in which
    case the entry is created), with progress [min (p + 5) 95] where [p]
    is the former progress (0 if none); a [completed]/100 entry becomes
    [running]/95. *)
Theorem script_output_sets_running (pipeline : list Stage) (s : State)
        (i out ty : string) (es : Store) :
  let ev := Receive (script_output i out ty) in
  (exists p,
     obj_get (executionStates (step pipeline ev s)) i = Some (mkES p running)
     /\ p = Z.min (progress (orIdle (obj_get (executionStates s) i)) + 5) 95)
  /\ (forall st p0,
        obj_get
          (executionStates
             (step pipeline ev
                (setExecutionStates (fun _ => obj_set es i (mkES p0 st)) s))) i
        = Some (mkES (Z.min (p0 + 5) 95) running))
  /\ obj_get
       (executionStates
          (step pipeline ev
             (setExecutionStates (fun _ => obj_set es i (mkES 100 completed)) s))) i
     = Some (mkES 95 running)
  /\ obj_get
       (executionStates
          (step pipeline ev (setExecutionStates (fun _ => []) s))) i
     = Some (mkES 5 running).
Proof.
  intro ev. subst ev. split; [|split; [|split]].
  - eexists. split; [apply script_output_entry|reflexivity].
  - intros st p0. rewrite script_output_entry. simpl.
    now rewrite obj_get_set_eq.
  - rewrite script_output_entry. simpl. now rewrite obj_get_set_eq.
  - rewrite script_output_entry. reflexivity.
Qed.

Lemma run_outputs_progress (pipeline : list Stage) (i : string)
      (lines : list (string * string)) :
  forall s,
    lines <> [] ->
    obj_get (executionStates (run pipeline (outputs i lines) s)) i
    = Some (mkES (Z.min (progress_at s i + 5 * Z.of_nat (length lines)) 95) running).
Proof.
  induction lines as [|[out ty] lines IH]; intros s Hne; [congruence|].
  destruct lines as [|l lines].
  - cbn [outputs run fold_left length]. rewrite script_output_entry.
    unfold progress_at. reflexivity.
  - change (run pipeline (outputs i ((out, ty) :: l :: lines)) s)
      with (run pipeline (outputs i (l :: lines))
              (step pipeline (Receive (script_output i out ty)) s)).
    rewrite IH by discriminate.
    unfold progress_at at 1. rewrite script_output_entry.
    unfold progress_at. cbn [progress orIdle].
    f_equal. f_equal. cbn [length]. lia.
Qed.

Lemma perform_progress_above_cap (pipeline : list Stage) (a : Action)
      (s : State) (i : string) :
  progress_at s i <= 95 ->
  95 < progress (orIdle (obj_get (executionStates (perform pipeline a s)) i)) ->
  exists d, a = Receive (execution_complete d) /\ cd_stage_id d = i.
Proof.
  unfold progress_at. intros Hle Hgt.
  destruct a as [|text| |stage| | | | |e]; simpl in Hgt.
  - lia.
  - lia.
  - unfold handleInputSubmit in Hgt.
    destruct (negb (trim (currentInput s) =? "") && socket s
              && truthy (waitingForInput s)); [|lia].
    destruct (waitingForInput s); simpl in Hgt; lia.
  - unfold executeStage in Hgt. destruct (negb (socket s)); simpl in Hgt; lia.
  - unfold startFullPipeline, andThen in Hgt.
    destruct (negb (socket s)); [simpl in Hgt; lia|].
    destruct (isAutoRunning s); [lia|].
    rewrite (proj1 (pipeline_loop_frame _ _)) in Hgt. simpl in Hgt. lia.
  - unfold shutdownAll, andThen in Hgt.
    destruct (negb (socket s)); [lia|].
    destruct (length (runningIds (executionStates s)) =? 0)%nat; [simpl in Hgt; lia|].
    simpl in Hgt. rewrite obj_get_set_all in Hgt.
    destruct (emitted_stop_all (runningIds (executionStates s)) s)
      as (_ & _ & _ & E & _).
    rewrite E in Hgt.
    destruct (existsb (String.eqb i) (runningIds (executionStates s)));
      simpl in Hgt; lia.
  - unfold stopExecution, andThen in Hgt.
    destruct (negb (socket s) || negb (truthy (selectedStage s))); [lia|].
    destruct (selectedStage s) as [sel|]; [|lia].
    simpl in Hgt. rewrite obj_get_set in Hgt.
    destruct (String.eqb sel i); simpl in Hgt; lia.
  - lia.
  - destruct e as [|j out ty|j p|j|d|j m|t].
    + simpl in Hgt. lia.
    + simpl in Hgt. rewrite obj_get_set in Hgt.
      destruct (String.eqb j i); simpl in Hgt; lia.
    + simpl in Hgt. lia.
    + simpl in Hgt. rewrite obj_get_set in Hgt.
      destruct (String.eqb j i); simpl in Hgt; lia.
    + rewrite deliver_complete_executionStates in Hgt.
      unfold on_execution_complete, andThen in Hgt. simpl in Hgt.
      rewrite obj_get_set in Hgt.
      destruct (String.eqb_spec (cd_stage_id d) i); [|lia].
      exists d. auto.
    + simpl in Hgt. rewrite obj_get_set in Hgt.
      destruct (String.eqb j i); simpl in Hgt; lia.
    + simpl in Hgt. lia.
Qed.

(** C4. Every output event for a stage raises its progress by the fixed
    step 5 with the cap 95: the new progress is [min (p + 5) 95], that is
    exactly [p + 5] as long as this does not pass the cap, and never
    above 95; so after any non-empty sequence of output events the
    progress is [min (p + 5 n) 95].  A turn of the component takes a
    stage's progress from within the cap to above it only when it
    receives the terminal [execution_complete] of that stage. *)
Theorem script_output_bumps_capped (pipeline : list Stage) (s : State)
        (i : string) :
  (forall out ty,
     let s' := step pipeline (Receive (script_output i out ty)) s in
     progress_at s' i = Z.min (progress_at s i + 5) 95
     /\ progress_at s' i <= 95
     /\ (progress_at s i <= 90 -> progress_at s' i = progress_at s i + 5))
  /\ (forall lines,
        lines <> [] ->
        let s' := run pipeline (outputs i lines) s in
        progress_at s' i = Z.min (progress_at s i + 5 * Z.of_nat (length lines)) 95
        /\ progress_at s' i <= 95)
  /\ (forall a,
        progress_at s i <= 95 ->
        95 < progress_at (step pipeline a s) i ->
        exists d, a = Receive (execution_complete d) /\ cd_stage_id d = i).
Proof.
  split; [|split].
  - intros out ty s'. subst s'.
    assert (E : progress_at (step pipeline (Receive (script_output i out ty)) s) i
                = Z.min (progress_at s i + 5) 95).
    { unfold progress_at. now rewrite script_output_entry. }
    rewrite E. repeat split; lia.
  - intros lines Hne s'. subst s'.
    assert (E : progress_at (run pipeline (outputs i lines) s) i
                = Z.min (progress_at s i + 5 * Z.of_nat (length lines)) 95).
    { unfold progress_at at 1. now rewrite run_outputs_progress. }
    rewrite E. split; lia.
  - intros a Hle Hgt. unfold progress_at in Hgt.
    rewrite step_executionStates in Hgt.
    now apply (perform_progress_above_cap pipeline a s i).
Qed.

Lemma script_output_bumps_capped_witness :
  let i := "image-render" in
  let s := run pipelineStages [Mount; Receive (execution_started i)] initialState in
  let lines := [("a", "info"); ("b", "info"); ("c", "error")] in
  let d := mkComplete i "success" in
  lines <> []
  /\ progress_at (run pipelineStages (outputs i lines) s) i = 15
  /\ progress_at s i <= 95
  /\ 95 < progress_at (step pipelineStages (Receive (execution_complete d)) s) i
  /\ exists d', Receive (execution_complete d) = Receive (execution_complete d')
                /\ cd_stage_id d' = i.
Proof.
  intros i s lines d.
  assert (Hne : lines <> []) by discriminate.
  assert (Hle : progress_at s i <= 95) by (vm_compute; discriminate).
  assert (Hgt : 95 < progress_at (step pipelineStages (Receive (execution_complete d)) s) i)
    by (vm_compute; reflexivity).
  destruct (script_output_bumps_capped pipelineStages s i) as (_ & Hrun & Hcap).
  split; [exact Hne|].
  split; [exact (eq_trans (proj1 (Hrun lines Hne)) eq_refl)|].
  split; [exact Hle|]. split; [exact Hgt|].
  exact (Hcap (Receive (execution_complete d)) Hle Hgt).
Defined.

(** ** Shutdown *)

Lemma Permutation_filter_compat {A : Type} (f : A -> bool) (l l' : list A) :
  Permutation l l' -> Permutation (filter f l) (filter f l').
Proof.
  induction 1 as [|a l l' _ IH|a b l|l l' l'' _ IH1 _ IH2]; simpl.
  - constructor.
  - destruct (f a); auto.
  - destruct (f a), (f b); auto using perm_swap, Permutation_refl.
  - eapply Permutation_trans; eauto.
Qed.

Lemma runningIds_Permutation (es es' : Store) :
  Permutation es es' -> Permutation (runningIds es) (runningIds es').
Proof.
  intros H. unfold runningIds.
  now apply Permutation_map, Permutation_filter_compat.
Qed.

Lemma existsb_eqb_In (k : string) (l : list string) :
  existsb (String.eqb k) l = true <-> In k l.
Proof.
  rewrite existsb_exists. split.
  - intros (x & Hin & E). apply String.eqb_eq in E. now subst.
  - intros Hin. exists k. split; auto. apply String.eqb_refl.
Qed.

Lemma shutdownAll_running (s : State) :
  socket s = true ->
  runningIds (executionStates s) <> [] ->
  let ids := runningIds (executionStates s) in
  let s' := shutdownAll s in
  emitted s' = (emitted s ++ map stop_stage ids)%list
  /\ logs s'
     = (logs s ++ [mkLog ("Shutdown requested for " ++ show_nat (length ids)
                          ++ " stage(s).") "system"])%list
  /\ waitingForInput s' = None
  /\ isAutoRunning s' = false
  /\ (forall k, obj_get (executionStates s') k
                = if existsb (String.eqb k) ids then Some (mkES 0 stopped)
                  else obj_get (executionStates s) k).
Proof.
  intros Hsock Hne ids s'. subst s'. unfold shutdownAll. rewrite Hsock. simpl.
  fold ids. destruct ids as [|i0 ids0] eqn:Eids; [contradiction|].
  rewrite <- Eids. replace (length ids =? 0)%nat with false by now rewrite Eids.
  unfold andThen. simpl.
  destruct (emitted_stop_all ids s) as (E1 & _ & E2 & E3 & _).
  rewrite E1, E2, E3. repeat split; auto.
  intros k. apply obj_get_set_all.
Qed.

(** C5. [shutdownAll] on a present socket with a store holding x running,
    y completed and z running (in whatever enumeration order) emits
    exactly two messages, [stop_stage] for x and for z, stores [stopped]/0
    for x and z, keeps y [completed], clears [waitingForInput] and
    [isAutoRunning]; with no running stage it appends the single entry
    "No running stages to stop." and emits nothing. *)
Theorem shutdownAll_effect :
  (forall (s : State) (x y z : string) (px py pz : Z),
      socket s = true ->
      x <> y -> x <> z -> y <> z ->
      Permutation (executionStates s)
        [(x, mkES px running); (y, mkES py completed); (z, mkES pz running)] ->
      let s' := shutdownAll s in
      (exists sent,
          emitted s' = (emitted s ++ sent)%list
          /\ Permutation sent [stop_stage x; stop_stage z])
      /\ obj_get (executionStates s') x = Some (mkES 0 stopped)
      /\ obj_get (executionStates s') z = Some (mkES 0 stopped)
      /\ obj_get (executionStates s') y = Some (mkES py completed)
      /\ waitingForInput s' = None
      /\ isAutoRunning s' = false)
  /\ (forall s : State,
         socket s = true ->
         runningIds (executionStates s) = [] ->
         let s' := shutdownAll s in
         s' = addLog "No running stages to stop." "system" s
         /\ logs s' = (logs s ++ [mkLog "No running stages to stop." "system"])%list
         /\ emitted s' = emitted s).
Proof.
  split.
  - intros s x y z px py pz Hsock Hxy Hxz Hyz Hperm s'.
    assert (Hids : Permutation (runningIds (executionStates s)) [x; z]).
    { apply runningIds_Permutation in Hperm. exact Hperm. }
    assert (Hne : runningIds (executionStates s) <> []).
    { intros E. rewrite E in Hids. now apply Permutation_nil in Hids. }
    destruct (shutdownAll_running s Hsock Hne) as (He & _ & Hw & Ha & Hg).
    fold s' in He, Hw, Ha, Hg.
    assert (Hx : existsb (String.eqb x) (runningIds (executionStates s)) = true).
    { apply existsb_eqb_In. apply Permutation_sym in Hids.
      apply (Permutation_in _ Hids). simpl; auto. }
    assert (Hz : existsb (String.eqb z) (runningIds (executionStates s)) = true).
    { apply existsb_eqb_In. apply Permutation_sym in Hids.
      apply (Permutation_in _ Hids). simpl; auto. }
    assert (Hy : existsb (String.eqb y) (runningIds (executionStates s)) = false).
    { destruct (existsb (String.eqb y) (runningIds (executionStates s))) eqn:E; auto.
      apply existsb_eqb_In in E. apply (Permutation_in _ Hids) in E.
      simpl in E. intuition congruence. }
    split; [|split; [|split; [|split; [|split]]]]; auto.
    + exists (map stop_stage (runningIds (executionStates s))). split; auto.
      change [stop_stage x; stop_stage z] with (map stop_stage [x; z]).
      now apply Permutation_map.
    + now rewrite Hg, Hx.
    + now rewrite Hg, Hz.
    + rewrite Hg, Hy. apply obj_get_In.
      * apply Permutation_sym in Hperm.
        apply (Permutation_NoDup (Permutation_map fst Hperm)). simpl.
        repeat constructor; simpl; intuition congruence.
      * apply Permutation_sym in Hperm.
        apply (Permutation_in _ Hperm). simpl; auto.
  - intros s Hsock Hnil s'. subst s'. unfold shutdownAll.
    rewrite Hsock, Hnil. simpl. repeat split.
Qed.

Lemma shutdownAll_effect_witness :
  let s := run pipelineStages
             [Mount; Receive (execution_started "image-generator");
              Receive (execution_started "channel-info");
              Receive (execution_complete (mkComplete "channel-info" "success"));
              Receive (execution_started "clean-base");
              Receive (request_input "clean-base" "Delete all? (y/n)")]
             initialState in
  let s0 := run pipelineStages
              [Mount; Receive (execution_started "channel-info");
               Receive (execution_complete (mkComplete "channel-info" "success"))]
              initialState in
  (emitted (shutdownAll s) = [stop_stage "image-generator"; stop_stage "clean-base"]
   /\ obj_get (executionStates (shutdownAll s)) "channel-info"
      = Some (mkES 100 completed)
   /\ waitingForInput s <> None /\ waitingForInput (shutdownAll s) = None)
  /\ (logs (shutdownAll s0)
      = (logs s0 ++ [mkLog "No running stages to stop." "system"])%list
      /\ emitted (shutdownAll s0) = []).
Proof.
  intros s s0.
  assert (Hxy : "image-generator" <> "channel-info") by discriminate.
  assert (Hxz : "image-generator" <> "clean-base") by discriminate.
  assert (Hyz : "channel-info" <> "clean-base") by discriminate.
  pose proof (proj1 shutdownAll_effect s "image-generator" "channel-info"
                "clean-base" 0 100 0 eq_refl Hxy Hxz Hyz (Permutation_refl _)) as H1.
  pose proof (proj2 shutdownAll_effect s0 eq_refl eq_refl) as H2.
  cbv zeta in H1, H2.
  destruct H1 as (_ & _ & _ & Hy & Hw & _). destruct H2 as (_ & Hl & He).
  split.
  - split; [reflexivity|]. split; [exact Hy|]. split; [discriminate|exact Hw].
  - split; [exact Hl|exact He].
Defined.

(** ** Terminal events and progress *)

(** C1 does not hold of the code: [execution_complete] stores progress
    100 whatever the outcome, so a [stopped] or failed outcome leaves
    status [stopped] or [error] with progress 100, not 0.  The handler of
    [execution_error], [stopExecution] and [shutdownAll] store progress 0
    with those statuses. *)
Theorem execution_complete_progress_not_reset :
  let i := "srt-generator" in
  let tr outcome :=
    [Mount; Receive (execution_started i);
     Receive (execution_complete (mkComplete i outcome))] in
  obj_get (executionStates (run pipelineStages (tr "stopped") initialState)) i
  = Some (mkES 100 stopped)
  /\ obj_get (executionStates (run pipelineStages (tr "error") initialState)) i
     = Some (mkES 100 error)
  /\ obj_get (executionStates
                (run pipelineStages
                   [Mount; Receive (execution_started i);
                    Receive (execution_error i "exit code 1")] initialState)) i
     = Some (mkES 0 error).
Proof. vm_compute. repeat split. Qed.

(** ** Promises and one-shot observers *)

Lemma Inv_initialState : Inv initialState.
Proof. split; simpl; try constructor; intros; contradiction. Qed.

(** [Inv] only looks at the promise cells. *)
Lemma Inv_frame (s s' : State) :
  completeListeners s' = completeListeners s ->
  resolved s' = resolved s ->
  nextPromise s' = nextPromise s ->
  Inv s -> Inv s'.
Proof.
  intros E1 E2 E3 [H1 H2 H3 H4 H5].
  split; unfold listening in *; rewrite ?E1, ?E2, ?E3; auto.
Qed.

Lemma NoDup_snoc {A : Type} (l : list A) (a : A) :
  NoDup l -> ~ In a l -> NoDup (l ++ [a]).
Proof.
  intros Hl Ha. apply NoDup_app; auto.
  - repeat constructor. simpl. tauto.
  - intros x Hx [E|[]]. subst. contradiction.
Qed.

Lemma executeStage_promises (stage : Stage) (s : State) :
  completeListeners (executeStage stage s) = completeListeners s
  /\ resolved (executeStage stage s) = resolved s
  /\ nextPromise (executeStage stage s) = nextPromise s
  /\ microtasks (executeStage stage s) = microtasks s.
Proof. unfold executeStage. destruct (negb (socket s)); simpl; auto. Qed.

Lemma executeStageAndWait_promises (stage : Stage) (rest : list Stage) (s : State) :
  let s' := executeStageAndWait stage rest s in
  nextPromise s' = S (nextPromise s)
  /\ (socket s = true ->
      completeListeners s'
      = (completeListeners s ++ [mkObserver (nextPromise s) stage rest])%list
      /\ resolved s' = resolved s /\ microtasks s' = microtasks s)
  /\ (socket s = false ->
      completeListeners s' = completeListeners s
      /\ resolved s' = (resolved s ++ [nextPromise s])%list
      /\ microtasks s'
         = (microtasks s ++ [mkJob (mkComplete (id stage) "error") stage rest])%list).
Proof.
  unfold executeStageAndWait, executeStage, andThen.
  destruct (socket s) eqn:E; simpl; rewrite ?E; simpl;
    repeat split; auto; discriminate.
Qed.

Lemma executeStageAndWait_Inv (stage : Stage) (rest : list Stage) (s : State) :
  Inv s ->
  Inv (executeStageAndWait stage rest s)
  /\ incl (resolved s) (resolved (executeStageAndWait stage rest s))
  /\ incl (completeListeners s) (completeListeners (executeStageAndWait stage rest s)).
Proof.
  intros [H1 H2 H3 H4 H5].
  destruct (executeStageAndWait_promises stage rest s) as (En & Ht & Hf).
  destruct (socket s) eqn:E.
  - destruct (Ht eq_refl) as (El & Er & _). split; [|split].
    + split; unfold listening in *; rewrite ?El, ?Er, ?En, ?map_app; simpl.
      * apply NoDup_snoc; auto. intros Hin. apply H2 in Hin. lia.
      * intros p Hin. apply in_app_or in Hin as [Hin|[<-|[]]]; [|lia].
        apply H2 in Hin. lia.
      * intros p Hin. apply H3 in Hin. lia.
      * assumption.
      * intros p Hin Hr. apply in_app_or in Hin as [Hin|[<-|[]]].
        -- now apply (H5 p).
        -- apply H3 in Hr. lia.
    + rewrite Er. apply incl_refl.
    + rewrite El. now apply incl_appl, incl_refl.
  - destruct (Hf eq_refl) as (El & Er & _). split; [|split].
    + split; unfold listening in *; rewrite ?El, ?Er, ?En; auto.
      * intros p Hin. apply H2 in Hin. lia.
      * intros p Hin. apply in_app_or in Hin as [Hin|[<-|[]]]; [|lia].
        apply H3 in Hin. lia.
      * apply NoDup_snoc; auto. intros Hin. apply H3 in Hin. lia.
      * intros p Hin Hr. apply in_app_or in Hr as [Hr|[<-|[]]].
        -- now apply (H5 p).
        -- apply H2 in Hin. lia.
    + rewrite Er. now apply incl_appl, incl_refl.
    + rewrite El. apply incl_refl.
Qed.

Lemma pipeline_loop_Inv (stages : list Stage) (s : State) :
  Inv s ->
  Inv (pipeline_loop stages s)
  /\ incl (resolved s) (resolved (pipeline_loop stages s))
  /\ incl (completeListeners s) (completeListeners (pipeline_loop stages s)).
Proof.
  intros H. destruct stages as [|st rest]; simpl; unfold andThen.
  - split; [|split]; try apply incl_refl.
    now apply (Inv_frame s).
  - apply (executeStageAndWait_Inv st rest (setSelectedStage (Some (id st)) s)).
    now apply (Inv_frame s).
Qed.

Lemma resume_Inv (j : Job) (s : State) :
  Inv s ->
  Inv (resume j s)
  /\ incl (resolved s) (resolved (resume j s))
  /\ incl (completeListeners s) (completeListeners (resume j s)).
Proof.
  intros H. unfold resume.
  destruct (negb (cd_status (job_result j) =? "success")).
  - unfold andThen. split; [|split]; try apply incl_refl.
    now apply (Inv_frame s).
  - now apply pipeline_loop_Inv.
Qed.

Lemma fold_resume_Inv (js : list Job) :
  forall s,
    Inv s ->
    let s' := fold_left (fun s0 j => resume j s0) js s in
    Inv s' /\ incl (resolved s) (resolved s')
    /\ incl (completeListeners s) (completeListeners s').
Proof.
  induction js as [|j js IH]; intros s H; simpl.
  - split; [|split]; auto using incl_refl.
  - destruct (resume_Inv j s H) as (H' & I1 & I2).
    destruct (IH _ H') as (H'' & I1' & I2').
    split; [|split]; auto; eapply incl_tran; eauto.
Qed.

Lemma run_queue_Inv (s : State) :
  Inv s ->
  Inv (run_queue s) /\ incl (resolved s) (resolved (run_queue s))
  /\ incl (completeListeners s) (completeListeners (run_queue s)).
Proof.
  intros H. unfold run_queue.
  apply (fold_resume_Inv (microtasks s) (take_microtasks s)).
  now apply (Inv_frame s).
Qed.

Lemma run_microtasks_Inv (s : State) :
  Inv s ->
  Inv (run_microtasks s) /\ incl (resolved s) (resolved (run_microtasks s))
  /\ incl (completeListeners s) (completeListeners (run_microtasks s)).
Proof.
  intros H. unfold run_microtasks, andThen.
  destruct (run_queue_Inv s H) as (H' & I1 & I2).
  destruct (run_queue_Inv _ H') as (H'' & I1' & I2').
  split; [|split]; auto; eapply incl_tran; eauto.
Qed.

Lemma remove_listener_middle (pre os : list Observer) (o : Observer) :
  ~ In (obs_promise o) (map obs_promise pre) ->
  remove_listener (obs_promise o) (pre ++ o :: os) = (pre ++ os)%list.
Proof.
  induction pre as [|a pre IH]; simpl; intros H.
  - now rewrite Nat.eqb_refl.
  - destruct (Nat.eqb_spec (obs_promise a) (obs_promise o)) as [E|E].
    + exfalso. apply H. now left.
    + rewrite IH; auto.
Qed.

(** Delivery of [execution_complete] to the observers: those awaiting the
    stage of the event are detached and their promises resolved, in
    registration order; the others stay. *)
Lemma fold_handleComplete_spec (d : CompleteData) (os : list Observer) :
  forall (pre : list Observer) (s : State),
    completeListeners s = (pre ++ os)%list ->
    NoDup (map obs_promise (pre ++ os)) ->
    let s' := fold_left (fun s0 o => handleComplete o d s0) os s in
    completeListeners s' = (pre ++ filter (fun o => negb (matches d o)) os)%list
    /\ resolved s' = (resolved s ++ map obs_promise (filter (matches d) os))%list
    /\ microtasks s' = (microtasks s ++ map (job_of d) (filter (matches d) os))%list.
Proof.
  induction os as [|o os IH]; intros pre s El Hnd; simpl.
  - rewrite !app_nil_r in *. auto.
  - unfold handleComplete at 2 4 6, andThen. fold (matches d o).
    destruct (matches d o) eqn:Em; simpl.
    + assert (Hpre : ~ In (obs_promise o) (map obs_promise pre)).
      { rewrite map_app in Hnd. simpl in Hnd.
        apply NoDup_remove_2 in Hnd. intros Hin. apply Hnd.
        apply in_or_app. now left. }
      match goal with |- context [fold_left _ os ?s1] =>
        destruct (IH pre s1) as (A & B & C) end.
      * simpl. rewrite El. now apply remove_listener_middle.
      * rewrite map_app in *. simpl in Hnd. now apply NoDup_remove_1 in Hnd.
      * simpl in B, C. rewrite A, B, C, <- !app_assoc. auto.
    + destruct (IH (pre ++ [o])%list s) as (A & B & C).
      * now rewrite <- app_assoc.
      * now rewrite <- app_assoc.
      * rewrite A, B, C, <- app_assoc. auto.
Qed.

Lemma deliver_complete_spec (d : CompleteData) (s : State) :
  NoDup (listening s) ->
  let s' := deliver (execution_complete d) s in
  completeListeners s' = filter (fun o => negb (matches d o)) (completeListeners s)
  /\ resolved s'
     = (resolved s ++ map obs_promise (filter (matches d) (completeListeners s)))%list
  /\ microtasks s'
     = (microtasks s ++ map (job_of d) (filter (matches d) (completeListeners s)))%list
  /\ nextPromise s' = nextPromise s.
Proof.
  intros Hnd. simpl.
  destruct (fold_handleComplete_spec d (completeListeners s) []
              (on_execution_complete d s) eq_refl Hnd) as (A & B & C).
  repeat split; auto.
  rewrite (fold_handleComplete_frame nextPromise); auto.
  intros; apply handleComplete_frame.
Qed.

Lemma NoDup_map_filter {A B : Type} (g : A -> B) (f : A -> bool) (l : list A) :
  NoDup (map g l) -> NoDup (map g (filter f l)).
Proof.
  induction l as [|a l IH]; simpl; intros H; auto.
  inversion H as [|? ? Hn H']; subst.
  destruct (f a); simpl; auto. constructor; auto.
  intros Hin. apply Hn. apply in_map_iff in Hin as (x & E & Hx).
  apply filter_In in Hx as [Hx _]. apply in_map_iff. eauto.
Qed.

Lemma NoDup_map_filter_disjoint {A B : Type} (g : A -> B) (f : A -> bool)
      (l : list A) (b : B) :
  NoDup (map g l) ->
  In b (map g (filter (fun a => negb (f a)) l)) ->
  ~ In b (map g (filter f l)).
Proof.
  induction l as [|a l IH]; simpl; intros H Hin; auto.
  inversion H as [|? ? Hn H']; subst.
  destruct (f a); simpl in *.
  - intros [E|Hin']; [|now apply (IH H' Hin)].
    subst b. apply Hn. apply in_map_iff in Hin as (x & E & Hx).
    apply filter_In in Hx as [Hx _]. apply in_map_iff. eauto.
  - destruct Hin as [E|Hin]; [|now apply IH].
    subst b. intros Hin'. apply Hn. apply in_map_iff in Hin' as (x & E & Hx).
    apply filter_In in Hx as [Hx _]. apply in_map_iff. eauto.
Qed.

Lemma deliver_complete_Inv (d : CompleteData) (s : State) :
  Inv s ->
  Inv (deliver (execution_complete d) s)
  /\ incl (resolved s) (resolved (deliver (execution_complete d) s)).
Proof.
  intros [H1 H2 H3 H4 H5].
  destruct (deliver_complete_spec d s H1) as (El & Er & _ & En).
  split.
  - split; unfold listening in *; rewrite ?El, ?Er, ?En.
    + now apply NoDup_map_filter.
    + intros p Hin. apply H2. apply in_map_iff in Hin as (x & E & Hx).
      apply filter_In in Hx as [Hx _]. apply in_map_iff. eauto.
    + intros p Hin. apply in_app_or in Hin as [Hin|Hin]; auto.
      apply H2. apply in_map_iff in Hin as (x & E & Hx).
      apply filter_In in Hx as [Hx _]. apply in_map_iff. eauto.
    + apply NoDup_app; auto.
      * now apply NoDup_map_filter.
      * intros p Hr Hin. apply (H5 p); auto.
        apply in_map_iff in Hin as (x & E & Hx).
        apply filter_In in Hx as [Hx _]. apply in_map_iff. eauto.
    + intros p Hin Hr. apply in_app_or in Hr as [Hr|Hr].
      * apply (H5 p); auto. apply in_map_iff in Hin as (x & E & Hx).
        apply filter_In in Hx as [Hx _]. apply in_map_iff. eauto.
      * now apply (NoDup_map_filter_disjoint obs_promise (matches d) _ p H1).
  - rewrite Er. now apply incl_appl, incl_refl.
Qed.

Lemma perform_promise_free (pipeline : list Stage) (a : Action) (s : State) :
  promise_free a = true ->
  completeListeners (perform pipeline a s) = completeListeners s
  /\ resolved (perform pipeline a s) = resolved s
  /\ nextPromise (perform pipeline a s) = nextPromise s
  /\ microtasks (perform pipeline a s) = microtasks s.
Proof.
  destruct a as [|text| |stage| | | | |e]; simpl; try discriminate; intros Hf; auto.
  - unfold handleInputSubmit.
    destruct (negb (trim (currentInput s) =? "") && socket s
              && truthy (waitingForInput s)); auto.
    destruct (waitingForInput s); simpl; auto.
  - apply executeStage_promises.
  - unfold shutdownAll, andThen.
    destruct (negb (socket s)); auto.
    destruct (length (runningIds (executionStates s)) =? 0)%nat; simpl; auto.
    destruct (emitted_stop_all (runningIds (executionStates s)) s)
      as (_ & _ & _ & _ & _ & _ & _ & _ & A & B & C & D).
    auto.
  - unfold stopExecution, andThen.
    destruct (negb (socket s) || negb (truthy (selectedStage s))); auto.
    destruct (selectedStage s); simpl; auto.
  - destruct e; simpl; auto; discriminate.
Qed.

Lemma perform_Inv (pipeline : list Stage) (a : Action) (s : State) :
  Inv s ->
  Inv (perform pipeline a s)
  /\ incl (resolved s) (resolved (perform pipeline a s)).
Proof.
  intros H. destruct (promise_free a) eqn:Ea.
  - destruct (perform_promise_free pipeline a s Ea) as (A & B & C & _).
    split; [now apply (Inv_frame s)|]. rewrite B. apply incl_refl.
  - destruct a as [|text| |stage| | | | |e]; try discriminate.
    + simpl. unfold startFullPipeline, andThen.
      destruct (negb (socket s)).
      { split; [now apply (Inv_frame s)|apply incl_refl]. }
      destruct (isAutoRunning s); [split; auto using incl_refl|].
      match goal with |- context [pipeline_loop pipeline ?s0] =>
        destruct (pipeline_loop_Inv pipeline s0) as (A & B & _) end; auto.
      now apply (Inv_frame s).
    + destruct e; try discriminate. now apply deliver_complete_Inv.
Qed.

Lemma step_Inv (pipeline : list Stage) (a : Action) (s : State) :
  Inv s ->
  Inv (step pipeline a s) /\ incl (resolved s) (resolved (step pipeline a s)).
Proof.
  intros H. unfold step, andThen.
  destruct (perform_Inv pipeline a s H) as (H' & I).
  destruct (run_microtasks_Inv _ H') as (H'' & I' & _).
  split; auto. eapply incl_tran; eauto.
Qed.

Lemma run_Inv (pipeline : list Stage) (tr : list Action) :
  forall s,
    Inv s ->
    Inv (run pipeline tr s) /\ incl (resolved s) (resolved (run pipeline tr s)).
Proof.
  induction tr as [|a tr IH]; intros s H; simpl.
  - split; auto using incl_refl.
  - destruct (step_Inv pipeline a s H) as (H' & I).
    destruct (IH _ H') as (H'' & I').
    split; auto. eapply incl_tran; eauto.
Qed.

(** At the end of every turn the microtask queue is empty. *)
Lemma step_drained (pipeline : list Stage) (a : Action) (s : State) :
  microtasks (step pipeline a s) = [].
Proof. unfold step, andThen. apply run_microtasks_drained. Qed.





(** ** The full pipeline run *)

Lemma same_run_refl (s : State) : same_run s s.
Proof. now split. Qed.

Lemma same_run_trans (s1 s2 s3 : State) :
  same_run s1 s2 -> same_run s2 s3 -> same_run s1 s3.
Proof. intros [] []. split; congruence. Qed.

Lemma step_nonterminal (pipeline : list Stage) (i : string) (e : InEvent)
      (s : State) :
  nonterminal_for i e = true ->
  microtasks s = [] ->
  let s' := step pipeline (Receive e) s in
  same_run s s'
  /\ (forall k, k <> i ->
        obj_get (executionStates s') k = obj_get (executionStates s) k).
Proof.
  intros He Hq s'.
  assert (Hs' : s' = deliver e s).
  { subst s'. unfold step, andThen. cbn [perform].
    apply run_microtasks_id.
    destruct (perform_promise_free pipeline (Receive e) s) as (_ & _ & _ & D).
    - destruct e; auto; discriminate.
    - cbn [perform] in D. congruence. }
  rewrite Hs'. clear Hs' s'.
  destruct e as [|j out ty|j p|j|d|j m|t]; simpl in He; try discriminate;
    try (apply String.eqb_eq in He; subst j);
    (split; [now split|]); intros k Hk; simpl; auto;
    apply obj_get_set_neq; congruence.
Qed.

Lemma run_nonterminal (pipeline : list Stage) (i : string) (evs : list InEvent) :
  forall s,
    forallb (nonterminal_for i) evs = true ->
    microtasks s = [] ->
    let s' := run pipeline (map Receive evs) s in
    same_run s s'
    /\ (forall k, k <> i ->
          obj_get (executionStates s') k = obj_get (executionStates s) k).
Proof.
  induction evs as [|e evs IH]; intros s Hall Hq; simpl.
  - split; auto using same_run_refl.
  - simpl in Hall. apply andb_true_iff in Hall as [He Hall].
    destruct (step_nonterminal pipeline i e s He Hq) as (R1 & G1).
    destruct (IH (step pipeline (Receive e) s) Hall (step_drained _ _ _))
      as (R2 & G2).
    split; [eapply same_run_trans; eauto|].
    intros k Hk. rewrite G2, G1; auto.
Qed.

(** [startFullPipeline] with nothing in flight: the first stage is
    selected, observed and started. *)
Lemma step_startFullPipeline (A : Stage) (rest : list Stage) (s : State) :
  socket s = true ->
  isAutoRunning s = false ->
  microtasks s = [] ->
  let s' := step (A :: rest) ClickStartAll s in
  emitted s' = (emitted s ++ [execute_stage (id A) (file A)])%list
  /\ completeListeners s'
     = (completeListeners s ++ [mkObserver (nextPromise s) A rest])%list
  /\ microtasks s' = []
  /\ socket s' = true
  /\ isAutoRunning s' = true
  /\ executionStates s' = executionStates s.
Proof.
  intros Hsock Hauto Hq s'. subst s'.
  unfold step, andThen. rewrite run_microtasks_id.
  - destruct s; simpl in *; subst.
    unfold startFullPipeline, executeStageAndWait, executeStage, andThen; simpl.
    repeat split.
  - destruct s; simpl in *; subst.
    unfold startFullPipeline, executeStageAndWait, executeStage, andThen; simpl.
    reflexivity.
Qed.

Lemma deliver_complete_single (o : Observer) (d : CompleteData) (s : State) :
  completeListeners s = [o] ->
  cd_stage_id d = id (obs_stage o) ->
  deliver (execution_complete d) s
  = resolve (obs_promise o) (job_of d o) (socket_off o (on_execution_complete d s)).
Proof.
  intros Hl Hd. cbn [deliver]. rewrite Hl. cbn [fold_left].
  unfold handleComplete, andThen. rewrite Hd, String.eqb_refl. reflexivity.
Qed.

Lemma run_microtasks_single (j : Job) (s : State) :
  microtasks s = [j] ->
  microtasks (resume j (take_microtasks s)) = [] ->
  run_microtasks s = resume j (take_microtasks s).
Proof.
  intros Hq Hq'. unfold run_microtasks, andThen.
  assert (E : run_queue s = resume j (take_microtasks s)).
  { unfold run_queue. now rewrite Hq. }
  rewrite E. now apply run_queue_id.
Qed.

(** The terminal event of the only awaited stage, with success: the loop
    moves on to the next stage. *)
Lemma step_complete_success (pipeline : list Stage) (p : nat)
      (A B : Stage) (rest : list Stage) (s : State) :
  socket s = true ->
  microtasks s = [] ->
  completeListeners s = [mkObserver p A (B :: rest)] ->
  let s' := step pipeline
              (Receive (execution_complete (mkComplete (id A) "success"))) s in
  emitted s' = (emitted s ++ [execute_stage (id B) (file B)])%list
  /\ completeListeners s' = [mkObserver (nextPromise s) B rest]
  /\ microtasks s' = []
  /\ socket s' = true
  /\ isAutoRunning s' = isAutoRunning s
  /\ executionStates s' = obj_set (executionStates s) (id A) (mkES 100 completed).
Proof.
  intros Hsock Hq Hl s'. subst s'.
  unfold step, andThen. cbn [perform].
  rewrite (deliver_complete_single _ (mkComplete (id A) "success") _ Hl eq_refl).
  destruct s; simpl in *; subst.
  rewrite (run_microtasks_single
             (job_of (mkComplete (id A) "success") (mkObserver p A (B :: rest))));
    simpl; rewrite ?Nat.eqb_refl; try reflexivity.
  unfold resume, executeStageAndWait, executeStage, andThen; simpl.
  repeat split.
Qed.

(** The terminal event of the only awaited stage, without success: the
    loop logs the halt, clears the guard and returns. *)
Lemma step_complete_failure (pipeline : list Stage) (p : nat)
      (B : Stage) (rest : list Stage) (outcome : string) (s : State) :
  outcome <> "success" ->
  microtasks s = [] ->
  completeListeners s = [mkObserver p B rest] ->
  let s' := step pipeline
              (Receive (execution_complete (mkComplete (id B) outcome))) s in
  emitted s' = emitted s
  /\ completeListeners s' = []
  /\ microtasks s' = []
  /\ isAutoRunning s' = false
  /\ logs s'
     = (logs s ++ [mkLog "Execution failed!" "error";
                   mkLog ("Pipeline halted at " ++ name B) "error"])%list
  /\ executionStates s'
     = obj_set (executionStates s) (id B) (mkES 100 (terminal_status outcome)).
Proof.
  intros Hout Hq Hl s'. subst s'.
  apply String.eqb_neq in Hout.
  unfold step, andThen. cbn [perform].
  rewrite (deliver_complete_single _ (mkComplete (id B) outcome) _ Hl eq_refl).
  destruct s; simpl in *; subst.
  rewrite (run_microtasks_single
             (job_of (mkComplete (id B) outcome) (mkObserver p B rest)));
    unfold resume; simpl; rewrite ?Nat.eqb_refl, ?Hout; try reflexivity.
  unfold andThen, on_execution_complete, terminal_status; simpl.
  rewrite Hout, <- app_assoc, Nat.eqb_refl. simpl.
  repeat split.
Qed.

(** With no observer registered and no microtask pending, received events
    emit nothing and register nothing. *)
Lemma step_receive_quiescent (pipeline : list Stage) (e : InEvent) (s : State) :
  completeListeners s = [] ->
  microtasks s = [] ->
  let s' := step pipeline (Receive e) s in
  emitted s' = emitted s /\ completeListeners s' = [] /\ microtasks s' = [].
Proof.
  intros Hl Hq s'. subst s'.
  destruct s; simpl in *; subst.
  unfold step, andThen, run_microtasks, run_queue, andThen.
  destruct e; simpl; auto.
Qed.

Lemma run_receive_quiescent (pipeline : list Stage) (evs : list InEvent) :
  forall s,
    completeListeners s = [] ->
    microtasks s = [] ->
    emitted (run pipeline (map Receive evs) s) = emitted s.
Proof.
  induction evs as [|e evs IH]; intros s Hl Hq; simpl; auto.
  destruct (step_receive_quiescent pipeline e s Hl Hq) as (A & B & C).
  rewrite IH; auto.
Qed.

Lemma run_app (pipeline : list Stage) (tr1 tr2 : list Action) (s : State) :
  run pipeline (tr1 ++ tr2) s = run pipeline tr2 (run pipeline tr1 s).
Proof. unfold run. apply fold_left_app. Qed.

Lemma run_cons (pipeline : list Stage) (a : Action) (tr : list Action) (s : State) :
  run pipeline (a :: tr) s = run pipeline tr (step pipeline a s).
Proof. reflexivity. Qed.

Lemma terminal_status_failure (outcome : string) :
  outcome <> "success" -> outcome <> "stopped" -> terminal_status outcome = error.
Proof.
  intros H1 H2. unfold terminal_status.
  apply String.eqb_neq in H1, H2. now rewrite H1, H2.
Qed.

(** C2. [startFullPipeline] on the ordered pipeline A, B, C..., with
    nothing in flight; A sends its non-terminal events and completes with
    success, B sends its non-terminal events and completes with a failure
    outcome.  Then A is [completed], B is [error], the messages emitted
    are exactly the [execute_stage] of A and of B, so none for any later
    stage C, whose entry in the store is what it was; the last log entry
    is "Pipeline halted at <name of B>", [isAutoRunning] is cleared, no
    observer is left, and no event received afterwards emits anything. *)
Theorem pipeline_halts_at_failure (A B : Stage) (rest : list Stage)
        (s0 : State) (evA evB : list InEvent) (outcome : string) :
  socket s0 = true ->
  isAutoRunning s0 = false ->
  completeListeners s0 = [] ->
  microtasks s0 = [] ->
  id A <> id B ->
  (forall C, In C rest -> id C <> id A /\ id C <> id B) ->
  forallb (nonterminal_for (id A)) evA = true ->
  forallb (nonterminal_for (id B)) evB = true ->
  outcome <> "success" ->
  outcome <> "stopped" ->
  let pipeline := A :: B :: rest in
  let tr :=
    (ClickStartAll :: map Receive evA
     ++ Receive (execution_complete (mkComplete (id A) "success")) :: map Receive evB
     ++ [Receive (execution_complete (mkComplete (id B) outcome))])%list in
  let s' := run pipeline tr s0 in
  obj_get (executionStates s') (id A) = Some (mkES 100 completed)
  /\ option_map status (obj_get (executionStates s') (id B)) = Some error
  /\ emitted s'
     = (emitted s0 ++ [execute_stage (id A) (file A);
                       execute_stage (id B) (file B)])%list
  /\ (forall C, In C rest ->
        (forall f, ~ In (execute_stage (id C) f)
                        [execute_stage (id A) (file A);
                         execute_stage (id B) (file B)])
        /\ obj_get (executionStates s') (id C) = obj_get (executionStates s0) (id C))
  /\ (exists l,
         logs s' = (l ++ [mkLog ("Pipeline halted at " ++ name B) "error"])%list)
  /\ isAutoRunning s' = false
  /\ completeListeners s' = []
  /\ (forall later,
         emitted (run pipeline (map Receive later) s') = emitted s').
Proof.
  intros Hsock Hauto Hl0 Hq0 HAB Hrest HevA HevB Hout1 Hout2 pipeline tr s'.
  (* the click *)
  set (s1 := step pipeline ClickStartAll s0).
  destruct (step_startFullPipeline A (B :: rest) s0 Hsock Hauto Hq0)
    as (E1 & L1 & Q1 & K1 & _ & X1).
  fold pipeline in E1, L1, Q1, K1, X1. fold s1 in E1, L1, Q1, K1, X1.
  rewrite Hl0 in L1. simpl in L1.
  (* A runs *)
  set (s2 := run pipeline (map Receive evA) s1).
  destruct (run_nonterminal pipeline (id A) evA s1 HevA Q1) as (R2 & G2).
  fold s2 in R2, G2. destruct R2 as [E2 L2 Q2 K2 _ N2 _].
  (* A completes *)
  set (dA := mkComplete (id A) "success").
  set (s3 := step pipeline (Receive (execution_complete dA)) s2).
  destruct (step_complete_success pipeline (nextPromise s0) A B rest s2)
    as (E3 & L3 & Q3 & K3 & _ & X3); try congruence.
  fold dA in E3, L3, Q3, K3, X3. fold s3 in E3, L3, Q3, K3, X3.
  (* B runs *)
  set (s4 := run pipeline (map Receive evB) s3).
  destruct (run_nonterminal pipeline (id B) evB s3 HevB Q3) as (R4 & G4).
  fold s4 in R4, G4. destruct R4 as [E4 L4 Q4 K4 _ N4 _].
  (* B fails *)
  set (dB := mkComplete (id B) outcome).
  set (s5 := step pipeline (Receive (execution_complete dB)) s4).
  destruct (step_complete_failure pipeline (nextPromise s2) B rest outcome s4)
    as (E5 & L5 & Q5 & A5 & Lg5 & X5); try congruence.
  fold dB in E5, L5, Q5, A5, Lg5, X5. fold s5 in E5, L5, Q5, A5, Lg5, X5.
  assert (Hs' : s' = s5).
  { subst s' tr. rewrite run_cons. fold s1.
    rewrite run_app. fold s2. rewrite run_cons. fold s3.
    rewrite run_app. fold s4. reflexivity. }
  rewrite Hs'. clear Hs'.
  split; [|split; [|split; [|split; [|split; [|split; [|split]]]]]].
  - rewrite X5, obj_get_set_neq by congruence.
    rewrite G4 by congruence. rewrite X3. apply obj_get_set_eq.
  - rewrite X5, obj_get_set_eq. simpl.
    now rewrite terminal_status_failure.
  - rewrite E5, E4, E3, E2, E1, <- app_assoc. reflexivity.
  - intros C HC. destruct (Hrest C HC) as [HCA HCB]. split.
    + intros f [E|[E|[]]]; inversion E; congruence.
    + rewrite X5, obj_get_set_neq by congruence.
      rewrite G4 by assumption. rewrite X3, obj_get_set_neq by congruence.
      rewrite G2 by assumption. now rewrite X1.
  - exists (logs s4 ++ [mkLog "Execution failed!" "error"])%list.
    rewrite Lg5, <- app_assoc. reflexivity.
  - assumption.
  - assumption.
  - intros later. now apply run_receive_quiescent.
Qed.

Lemma pipeline_halts_at_failure_witness :
  let A := mkStage "get-scripts" "Get Scripts" "get_scripts.py" in
  let B := mkStage "srt-generator" "SRT Generator" "srt_generator.py" in
  let C := mkStage "image-suggestions" "Image Suggestions" "suggestion_generator.py" in
  let rest := tl (tl pipelineStages) in
  let s0 := run pipelineStages
              [Mount; Receive connected;
               Receive (execution_started "image-suggestions");
               Receive (execution_error "image-suggestions" "no prompts")]
              initialState in
  let evA := [execution_started "get-scripts";
              script_output "get-scripts" "Fetching pages" "info";
              request_input "get-scripts" "Which base?";
              input_sent "base-01"] in
  let evB := [execution_started "srt-generator";
              script_output "srt-generator" "Traceback" "error"] in
  let tr :=
    (ClickStartAll :: map Receive evA
     ++ Receive (execution_complete (mkComplete "get-scripts" "success"))
        :: map Receive evB
     ++ [Receive (execution_complete (mkComplete "srt-generator" "error"))])%list in
  let s' := run pipelineStages tr s0 in
  In C rest
  /\ obj_get (executionStates s') "get-scripts" = Some (mkES 100 completed)
  /\ option_map status (obj_get (executionStates s') "srt-generator") = Some error
  /\ emitted s' = [execute_stage "get-scripts" "get_scripts.py";
                   execute_stage "srt-generator" "srt_generator.py"]
  /\ obj_get (executionStates s') "image-suggestions" = Some (mkES 0 error)
  /\ isAutoRunning s' = false.
Proof.
  intros A B C rest s0 evA evB tr s'.
  assert (HAB : id A <> id B) by discriminate.
  assert (Hrest : forall C0, In C0 rest -> id C0 <> id A /\ id C0 <> id B).
  { intros C0 [<-|[<-|[<-|[]]]]; split; discriminate. }
  assert (Ho1 : "error" <> "success") by discriminate.
  assert (Ho2 : "error" <> "stopped") by discriminate.
  assert (HC : In C rest) by (left; reflexivity).
  pose proof (pipeline_halts_at_failure A B rest s0 evA evB "error"
                eq_refl eq_refl eq_refl eq_refl HAB Hrest eq_refl eq_refl Ho1 Ho2)
    as H.
  cbv zeta in H. destruct H as (HA & HB & He & Hc & _ & Ha & _).
  split; [exact HC|]. split; [exact HA|]. split; [exact HB|].
  split; [exact He|]. split; [exact (proj2 (Hc C HC))|exact Ha].
Defined.

(** ** The progress invariant away from failed completions *)

Lemma store_ok_set (es : Store) (k : string) (v : ExecutionState) :
  store_ok es -> entry_ok v -> store_ok (obj_set es k v).
Proof.
  intros Hs Hv k' e. rewrite obj_get_set.
  destruct (String.eqb k k'); [intros [= <-]; exact Hv|apply Hs].
Qed.

Lemma store_ok_set_all (ids : list string) (v : ExecutionState) :
  entry_ok v ->
  forall es, store_ok es ->
             store_ok (fold_left (fun next i => obj_set next i v) ids es).
Proof.
  intros Hv. induction ids as [|i ids IH]; intros es Hs; simpl; auto.
  apply IH. now apply store_ok_set.
Qed.

Lemma entry_ok_terminal_zero (st : Status) :
  st = stopped \/ st = error -> entry_ok (mkES 0 st).
Proof.
  intros [-> | ->]; repeat split; simpl; intros; try lia; try discriminate.
Qed.

Lemma entry_ok_running (p : Z) : 0 <= p <= 95 -> entry_ok (mkES p running).
Proof.
  intros H. repeat split; simpl; intros; try lia; try discriminate.
  destruct H0 as [|[|]]; discriminate.
Qed.

Lemma perform_store_ok (pipeline : list Stage) (a : Action) (s : State) :
  benign a = true ->
  store_ok (executionStates s) ->
  store_ok (executionStates (perform pipeline a s)).
Proof.
  intros Ha Hs.
  destruct a as [|text| |stage| | | | |e]; simpl; auto.
  - unfold handleInputSubmit.
    destruct (negb (trim (currentInput s) =? "") && socket s
              && truthy (waitingForInput s)); auto.
    destruct (waitingForInput s); simpl; auto.
  - unfold executeStage. destruct (negb (socket s)); simpl; auto.
  - unfold startFullPipeline, andThen.
    destruct (negb (socket s)); [simpl; auto|].
    destruct (isAutoRunning s); auto.
    now rewrite (proj1 (pipeline_loop_frame _ _)).
  - unfold shutdownAll, andThen.
    destruct (negb (socket s)); auto.
    destruct (length (runningIds (executionStates s)) =? 0)%nat; [simpl; auto|].
    simpl.
    destruct (emitted_stop_all (runningIds (executionStates s)) s)
      as (_ & _ & _ & E & _).
    rewrite E. apply store_ok_set_all; auto.
    apply entry_ok_terminal_zero. now left.
  - unfold stopExecution, andThen.
    destruct (negb (socket s) || negb (truthy (selectedStage s))); auto.
    destruct (selectedStage s) as [sel|]; auto. simpl.
    apply store_ok_set; auto. apply entry_ok_terminal_zero. now left.
  - intros k e. simpl. discriminate.
  - destruct e as [|j out ty|j p|j|d|j m|t]; simpl; auto.
    + apply store_ok_set; auto. apply entry_ok_running.
      assert (H0 : 0 <= progress (orIdle (obj_get (executionStates s) j))).
      { destruct (obj_get (executionStates s) j) as [c|] eqn:E; simpl; [|lia].
        apply (Hs j c E). }
      lia.
    + apply store_ok_set; auto. apply entry_ok_running. lia.
    + fold (deliver (execution_complete d) s).
      rewrite deliver_complete_executionStates.
      unfold on_execution_complete, andThen, terminal_status. simpl.
      simpl in Ha. rewrite Ha.
      apply store_ok_set; auto.
      repeat split; simpl; intros; try lia; try discriminate.
      destruct H as [|[|]]; discriminate.
    + apply store_ok_set; auto. apply entry_ok_terminal_zero. now right.
Qed.

(** As long as no [execution_complete] with an outcome other than success
    is received, every stored entry has progress in [0,100], progress 100
    exactly when [completed], and progress 0 when [idle], [stopped] or
    [error]: the handler of [execution_complete] is the only place where
    the invariant of C1 breaks. *)
Lemma store_ok_benign_run (pipeline : list Stage) (tr : list Action) :
  forall s,
    forallb benign tr = true ->
    store_ok (executionStates s) ->
    store_ok (executionStates (run pipeline tr s)).
Proof.
  induction tr as [|a tr IH]; intros s Hall Hs; simpl; auto.
  simpl in Hall. apply andb_true_iff in Hall as [Ha Hall].
  apply IH; auto. rewrite step_executionStates.
  now apply perform_store_ok.
Qed.

(** ** The socket cell *)

(** No callback ever sets [socket] back to [null]: the [socket] a
    callback closed over when the pipeline was started is the one of the
    current state. *)
Lemma step_socket_kept (pipeline : list Stage) (a : Action) (s : State) :
  socket s = true -> socket (step pipeline a s) = true.
Proof.
  intros H. unfold step, andThen.
  rewrite (proj2 (proj2 (proj2 (run_microtasks_frame _)))).
  destruct a as [|text| |stage| | | | |e]; simpl; auto.
  - unfold handleInputSubmit.
    destruct (negb (trim (currentInput s) =? "") && socket s
              && truthy (waitingForInput s)); auto.
    destruct (waitingForInput s); simpl; auto.
  - unfold executeStage. destruct (negb (socket s)); simpl; auto.
  - unfold startFullPipeline, andThen.
    destruct (negb (socket s)); [simpl; auto|].
    destruct (isAutoRunning s); auto.
    now rewrite (proj2 (proj2 (proj2 (pipeline_loop_frame _ _)))).
  - unfold shutdownAll, andThen.
    destruct (negb (socket s)); auto.
    destruct (length (runningIds (executionStates s)) =? 0)%nat; [simpl; auto|].
    simpl.
    destruct (emitted_stop_all (runningIds (executionStates s)) s)
      as (_ & _ & _ & _ & _ & _ & E & _).
    now rewrite E.
  - unfold stopExecution, andThen.
    destruct (negb (socket s) || negb (truthy (selectedStage s))); auto.
    destruct (selectedStage s) as [sel|]; auto.
  - destruct e as [|j out ty|j p|j|d|j m|t]; simpl; auto.
    rewrite (fold_handleComplete_frame socket); auto.
    intros; apply handleComplete_frame.
Qed.

(** Once the mount effect has run, the socket object is there for
    good. *)
Lemma socket_after_mount (pipeline : list Stage) (tr : list Action) :
  socket (run pipeline (Mount :: tr) initialState) = true.
Proof.
  rewrite run_cons.
  assert (H : socket (step pipeline Mount initialState) = true) by reflexivity.
  revert H. generalize (step pipeline Mount initialState).
  induction tr as [|a tr IH]; intros s H; simpl; auto.
  apply IH. now apply step_socket_kept.
Qed.

(** * Further properties of the callbacks *)

(** ** Input submission *)

Lemma trimStart_starts_clean (t : string) : starts_clean (trimStart t) = true.
Proof.
  induction t as [|c t IH]; simpl; auto.
  destruct (is_white_space c) eqn:E; auto. simpl. now rewrite E.
Qed.

Lemma trimEnd_ends_clean (t : string) : ends_clean (trimEnd t) = true.
Proof.
  induction t as [|c t IH]; simpl; auto.
  destruct (trimEnd t) as [|c' r] eqn:E.
  - destruct (is_white_space c) eqn:Ec; simpl; auto. now rewrite Ec.
  - rewrite andb_false_r. exact IH.
Qed.

Lemma trimEnd_starts_clean (t : string) :
  starts_clean t = true -> starts_clean (trimEnd t) = true.
Proof.
  destruct t as [|c t]; simpl; auto.
  intros H. apply negb_true_iff in H. rewrite H. simpl. now rewrite H.
Qed.

Lemma trimEnd_empty (t : string) : trimEnd t = "" -> whitespace_only t = true.
Proof.
  induction t as [|c t IH]; simpl; auto.
  destruct (is_white_space c); simpl; [|discriminate].
  destruct (trimEnd t); simpl; [auto|discriminate].
Qed.

Lemma whitespace_only_trimStart (t : string) :
  whitespace_only (trimStart t) = whitespace_only t.
Proof.
  induction t as [|c t IH]; simpl; auto.
  destruct (is_white_space c) eqn:E; simpl; auto. now rewrite E.
Qed.

Lemma trim_empty_iff (t : string) : trim t = "" <-> whitespace_only t = true.
Proof.
  split; [|apply trim_whitespace_only].
  unfold trim. intros H. apply trimEnd_empty in H.
  now rewrite whitespace_only_trimStart in H.
Qed.

Lemma trim_clean (t : string) :
  starts_clean (trim t) = true /\ ends_clean (trim t) = true.
Proof.
  unfold trim. split.
  - apply trimEnd_starts_clean, trimStart_starts_clean.
  - apply trimEnd_ends_clean.
Qed.

Lemma step_promise_free (pipeline : list Stage) (a : Action) (s : State) :
  promise_free a = true ->
  microtasks s = [] ->
  step pipeline a s = perform pipeline a s.
Proof.
  intros Ha Hq. unfold step, andThen. apply run_microtasks_id.
  destruct (perform_promise_free pipeline a s Ha) as (_ & _ & _ & E).
  congruence.
Qed.

Lemma run_promise_free (pipeline : list Stage) (tr : list Action) :
  forall s,
    forallb promise_free tr = true ->
    microtasks s = [] ->
    run pipeline tr s = fold_left (fun s' a => perform pipeline a s') tr s.
Proof.
  induction tr as [|a tr IH]; intros s Hall Hq; simpl; auto.
  simpl in Hall. apply andb_true_iff in Hall as [Ha Hall].
  rewrite (step_promise_free pipeline a s Ha Hq).
  apply IH; auto.
  destruct (perform_promise_free pipeline a s Ha) as (_ & _ & _ & E). congruence.
Qed.

Lemma handleInputSubmit_idle (s : State) :
  waitingForInput s = None -> handleInputSubmit s = s.
Proof.
  intros H. unfold handleInputSubmit. rewrite H. simpl.
  now rewrite andb_false_r.
Qed.

Lemma stopExecution_fields (s : State) (sel : string) :
  socket s = true ->
  selectedStage s = Some sel ->
  sel <> "" ->
  stopExecution s
  = (socket_emit (stop_stage sel) ;;
     addLog "Stop requested..." "system" ;;
     setLogs (fun _ => []) ;;
     setWaitingForInput None ;;
     setExecutionStates (fun prev => obj_set prev sel (mkES 0 stopped))) s.
Proof.
  intros Hsock Hsel Hne. unfold stopExecution. rewrite Hsock, Hsel. simpl.
  apply String.eqb_neq in Hne. now rewrite Hne.
Qed.

Lemma handleInputSubmit_fields (s : State) (w : string) :
  socket s = true ->
  waitingForInput s = Some w ->
  w <> "" ->
  whitespace_only (currentInput s) = false ->
  handleInputSubmit s
  = (socket_emit (send_input w (trim (currentInput s))) ;;
     setCurrentInput "" ;;
     setWaitingForInput None) s.
Proof.
  intros Hsock Hw Hne Hws.
  assert (Ht : trim (currentInput s) <> "").
  { intros E. apply trim_empty_iff in E. congruence. }
  unfold handleInputSubmit. rewrite Hsock, Hw.
  apply String.eqb_neq in Ht. rewrite Ht. simpl.
  apply String.eqb_neq in Hne. now rewrite Hne.
Qed.

(** X1. When the socket is there, a request is pending and the input is
    not only white space, [handleInputSubmit] emits exactly one
    [send_input], addressed to the pending stage and carrying the input
    without its surrounding white space (hence non-empty); it empties the
    input field and the slot and writes nothing to the log or the store;
    submitting again at once does nothing. *)
Theorem handleInputSubmit_sends (s : State) (w : string) :
  socket s = true ->
  waitingForInput s = Some w ->
  w <> "" ->
  whitespace_only (currentInput s) = false ->
  let s' := handleInputSubmit s in
  let text := trim (currentInput s) in
  emitted s' = (emitted s ++ [send_input w text])%list
  /\ text <> "" /\ starts_clean text = true /\ ends_clean text = true
  /\ currentInput s' = "" /\ waitingForInput s' = None
  /\ logs s' = logs s /\ executionStates s' = executionStates s
  /\ handleInputSubmit s' = s'.
Proof.
  intros Hsock Hw Hne Hws s' text.
  assert (Ht : text <> "").
  { intros E. apply trim_empty_iff in E. congruence. }
  destruct (trim_clean (currentInput s)) as [Hs He]. fold text in Hs, He.
  subst s'. rewrite (handleInputSubmit_fields s w) by assumption.
  fold text. unfold andThen. simpl. repeat split; auto.
Qed.

Lemma handleInputSubmit_sends_witness :
  let s := run pipelineStages
             [Mount; Receive (request_input "create-profile" "Profile name: ");
              Change "  main channel "] initialState in
  emitted (handleInputSubmit s) = [send_input "create-profile" "main channel"]
  /\ waitingForInput (handleInputSubmit s) = None.
Proof.
  intro s.
  assert (Hne : "create-profile" <> "") by discriminate.
  pose proof (handleInputSubmit_sends s "create-profile" eq_refl eq_refl Hne eq_refl)
    as H.
  cbv zeta in H. destruct H as (He & _ & _ & _ & _ & Hw & _).
  split; [exact He|exact Hw].
Defined.

(** X2. The pending-input slot is single: a second [request_input]
    replaces the first, so the text submitted next goes to the stage that
    asked last, and the first request is never answered. *)
Theorem request_input_supersedes (pipeline : list Stage) (s : State)
        (i j p q t : string) :
  socket s = true ->
  microtasks s = [] ->
  j <> "" ->
  whitespace_only t = false ->
  let s' := run pipeline
              [Receive (request_input i p); Receive (request_input j q);
               Change t; Submit] s in
  emitted s' = (emitted s ++ [send_input j (trim t)])%list
  /\ waitingForInput s' = None
  /\ handleInputSubmit s' = s'.
Proof.
  intros Hsock Hq Hj Ht s'. subst s'.
  rewrite run_promise_free by (auto; reflexivity).
  cbn [fold_left perform deliver].
  set (s3 := setCurrentInput t
               (on_request_input j q (on_request_input i p s))).
  rewrite (handleInputSubmit_fields s3 j) by (assumption || reflexivity).
  unfold andThen. simpl. repeat split.
Qed.

Lemma request_input_supersedes_witness :
  let s := run pipelineStages [Mount] initialState in
  emitted (run pipelineStages
             [Receive (request_input "create-profile" "Profile name: ");
              Receive (request_input "channel-info" "Channel URL: ");
              Change "https://example.org/c"; Submit] s)
  = [send_input "channel-info" "https://example.org/c"].
Proof.
  intro s.
  assert (Hj : "channel-info" <> "") by discriminate.
  exact (proj1 (request_input_supersedes pipelineStages s "create-profile"
                  "channel-info" "Profile name: " "Channel URL: "
                  "https://example.org/c" eq_refl eq_refl Hj eq_refl)).
Defined.

(** X3. [stopExecution] clears the pending request whichever stage it
    belongs to: after stopping the selected stage x, the answer to a
    request of another stage y is dropped, and the only message emitted
    is the [stop_stage] of x. *)
Theorem stopExecution_drops_pending (pipeline : list Stage) (s : State)
        (x y q t : string) :
  socket s = true ->
  microtasks s = [] ->
  selectedStage s = Some x ->
  x <> "" ->
  let s' := run pipeline
              [Receive (request_input y q); ClickStop; Change t; Submit] s in
  emitted s' = (emitted s ++ [stop_stage x])%list
  /\ waitingForInput s' = None
  /\ currentInput s' = t.
Proof.
  intros Hsock Hq Hsel Hx s'. subst s'.
  rewrite run_promise_free by (auto; reflexivity).
  cbn [fold_left perform deliver].
  rewrite (stopExecution_fields (on_request_input y q s) x) by (simpl; auto).
  rewrite handleInputSubmit_idle by reflexivity.
  unfold andThen. simpl. auto.
Qed.

Lemma stopExecution_drops_pending_witness :
  let s := run pipelineStages
             [Mount; ClickStage (mkStage "get-scripts" "Get Scripts" "get_scripts.py");
              Receive (execution_started "get-scripts")] initialState in
  let s' := run pipelineStages
              [Receive (request_input "channel-info" "Channel URL: ");
               ClickStop; Change "https://example.org/c"; Submit] s in
  emitted s' = [execute_stage "get-scripts" "get_scripts.py"; stop_stage "get-scripts"]
  /\ waitingForInput s' = None.
Proof.
  intros s s'.
  assert (Hx : "get-scripts" <> "") by discriminate.
  pose proof (stopExecution_drops_pending pipelineStages s "get-scripts"
                "channel-info" "Channel URL: " "https://example.org/c"
                eq_refl eq_refl eq_refl Hx) as H.
  cbv zeta in H. destruct H as (He & Hw & _).
  split; [exact He|exact Hw].
Defined.

(** ** The log *)

Lemma deliver_logs (e : InEvent) (s : State) :
  logs (deliver e s) = (logs s ++ [log_of e])%list.
Proof.
  destruct e as [|j out ty|j p|j|d|j m|t]; simpl; auto.
  rewrite (fold_handleComplete_frame logs).
  - unfold on_execution_complete, andThen. simpl.
    destruct (cd_status d =? "success"); reflexivity.
  - intros; apply handleComplete_frame.
Qed.

Lemma resume_logs (j : Job) (s : State) :
  exists l, logs (resume j s) = (logs s ++ l)%list.
Proof.
  unfold resume, pipeline_loop, executeStageAndWait, executeStage, andThen.
  destruct (negb (cd_status (job_result j) =? "success")); simpl.
  - eexists; reflexivity.
  - destruct (job_rest j) as [|st r]; simpl.
    + eexists; reflexivity.
    + destruct (socket s) eqn:E; simpl; rewrite ?E; simpl.
      * exists []. now rewrite app_nil_r.
      * eexists; reflexivity.
Qed.

Lemma fold_resume_logs (js : list Job) :
  forall s, exists l,
    logs (fold_left (fun s' j => resume j s') js s) = (logs s ++ l)%list.
Proof.
  induction js as [|j js IH]; intros s; simpl.
  - exists []. now rewrite app_nil_r.
  - destruct (resume_logs j s) as (l1 & E1).
    destruct (IH (resume j s)) as (l2 & E2).
    exists (l1 ++ l2)%list. now rewrite E2, E1, app_assoc.
Qed.

Lemma run_microtasks_logs (s : State) :
  exists l, logs (run_microtasks s) = (logs s ++ l)%list.
Proof.
  unfold run_microtasks, andThen, run_queue.
  destruct (fold_resume_logs (microtasks s) (take_microtasks s)) as (l1 & E1).
  set (s1 := fold_left _ (microtasks s) (take_microtasks s)) in *.
  destruct (fold_resume_logs (microtasks s1) (take_microtasks s1)) as (l2 & E2).
  exists (l1 ++ l2)%list. rewrite E2. simpl. rewrite E1. simpl.
  now rewrite app_assoc.
Qed.

(** X4. A received event first appends the one log entry of its handler;
    whatever else the turn appends comes after it (the entries of the
    pipeline loop it resumes).  With no observer registered, a sequence
    of events leaves exactly one entry per event, in arrival order,
    whichever stages the events belong to. *)
Theorem logs_in_arrival_order (pipeline : list Stage) :
  (forall e s, exists more,
      logs (step pipeline (Receive e) s) = (logs s ++ log_of e :: more)%list)
  /\ (forall evs s,
         completeListeners s = [] ->
         microtasks s = [] ->
         logs (run pipeline (map Receive evs) s) = (logs s ++ map log_of evs)%list).
Proof.
  split.
  - intros e s. unfold step, andThen. cbn [perform].
    destruct (run_microtasks_logs (deliver e s)) as (l & E).
    exists l. now rewrite E, deliver_logs, <- app_assoc.
  - induction evs as [|e evs IH]; intros s Hl Hq; simpl.
    + now rewrite app_nil_r.
    + destruct (step_receive_quiescent pipeline e s Hl Hq) as (_ & Hl' & Hq').
      rewrite (IH _ Hl' Hq').
      assert (E : step pipeline (Receive e) s = deliver e s).
      { unfold step, andThen. cbn [perform]. apply run_microtasks_id.
        destruct e; try (simpl; assumption).
        destruct (deliver_complete_spec data s) as (_ & _ & Em & _).
        - unfold listening. rewrite Hl. constructor.
        - rewrite Em, Hl, Hq. reflexivity. }
      rewrite E, deliver_logs, <- app_assoc. reflexivity.
Qed.

Lemma logs_in_arrival_order_witness :
  let s := run pipelineStages [Mount] initialState in
  logs (run pipelineStages
          (map Receive
             [connected; script_output "get-scripts" "page 1" "info";
              script_output "clean-base" "removed 3 files" "info";
              execution_error "get-scripts" "timeout"]) s)
  = [mkLog "Connected to backend" "system"; mkLog "page 1" "info";
     mkLog "removed 3 files" "info"; mkLog "Error: timeout" "error"].
Proof.
  intro s.
  exact (proj2 (logs_in_arrival_order pipelineStages) _ s eq_refl eq_refl).
Defined.

(** Callbacks that empty the log. *)
Lemma perform_logs_kept (pipeline : list Stage) (a : Action) (s : State) :
  a <> ClickStop -> a <> ClickClear ->
  exists l, logs (perform pipeline a s) = (logs s ++ l)%list.
Proof.
  intros H1 H2.
  destruct a as [|text| |stage| | | | |e]; try congruence; simpl.
  - exists []. now rewrite app_nil_r.
  - exists []. now rewrite app_nil_r.
  - unfold handleInputSubmit.
    destruct (negb (trim (currentInput s) =? "") && socket s
              && truthy (waitingForInput s));
      [destruct (waitingForInput s)|]; simpl;
      exists []; now rewrite app_nil_r.
  - unfold executeStage. destruct (negb (socket s)); simpl.
    + eexists; reflexivity.
    + exists []. now rewrite app_nil_r.
  - unfold startFullPipeline, andThen.
    destruct (negb (socket s)); [simpl; eexists; reflexivity|].
    destruct (isAutoRunning s); [exists []; now rewrite app_nil_r|].
    unfold pipeline_loop, executeStageAndWait, executeStage, andThen.
    destruct pipeline as [|st r]; simpl; [eexists; rewrite <- app_assoc; reflexivity|].
    destruct (socket s); simpl; eexists; try rewrite <- app_assoc; reflexivity.
  - unfold shutdownAll, andThen.
    destruct (negb (socket s)); [exists []; now rewrite app_nil_r|].
    destruct (length (runningIds (executionStates s)) =? 0)%nat; simpl;
      [eexists; reflexivity|].
    destruct (emitted_stop_all (runningIds (executionStates s)) s)
      as (_ & _ & E & _).
    rewrite E. eexists; reflexivity.
  - fold (deliver e s). rewrite deliver_logs. eexists; reflexivity.
Qed.

(** X5. The log only grows, except on "Stop" and "Clear": any other turn
    keeps every entry already there, in place, and appends. *)
Theorem logs_append_only (pipeline : list Stage) (a : Action) (s : State) :
  a <> ClickStop ->
  a <> ClickClear ->
  exists l, logs (step pipeline a s) = (logs s ++ l)%list.
Proof.
  intros H1 H2. unfold step, andThen.
  destruct (perform_logs_kept pipeline a s H1 H2) as (l1 & E1).
  destruct (run_microtasks_logs (perform pipeline a s)) as (l2 & E2).
  exists (l1 ++ l2)%list. now rewrite E2, E1, app_assoc.
Qed.

Lemma logs_append_only_witness :
  let s := run pipelineStages [Mount; Receive connected] initialState in
  exists l, logs (step pipelineStages ClickShutdownAll s) = (logs s ++ l)%list.
Proof.
  intro s.
  assert (H1 : ClickShutdownAll <> ClickStop) by discriminate.
  assert (H2 : ClickShutdownAll <> ClickClear) by discriminate.
  exact (logs_append_only pipelineStages ClickShutdownAll s H1 H2).
Defined.

(** ** The store across stages *)

(** X6. An event about one stage leaves the entries of all other stages
    as they are, through the whole turn. *)
Theorem receive_other_stage_untouched (pipeline : list Stage) (e : InEvent)
        (k : string) (s : State) :
  event_stage e <> Some k ->
  obj_get (executionStates (step pipeline (Receive e) s)) k
  = obj_get (executionStates s) k.
Proof.
  intros H. rewrite step_executionStates. cbn [perform].
  destruct e as [|j out ty|j p|j|d|j m|t]; simpl in H;
    try rewrite deliver_complete_executionStates; simpl; auto;
    apply obj_get_set_neq; congruence.
Qed.

Lemma receive_other_stage_untouched_witness :
  let s := run pipelineStages
             [Mount; Receive (execution_started "image-generator");
              Receive (script_output "image-generator" "1/40" "info")] initialState in
  obj_get (executionStates
             (step pipelineStages
                (Receive (execution_complete (mkComplete "clean-base" "error"))) s))
          "image-generator"
  = Some (mkES 5 running).
Proof.
  intro s.
  assert (H : event_stage (execution_complete (mkComplete "clean-base" "error"))
              <> Some "image-generator") by discriminate.
  exact (eq_trans (receive_other_stage_untouched pipelineStages _ _ s H) eq_refl).
Defined.

Lemma executeStage_connected (stage : Stage) (s : State) :
  socket s = true ->
  executeStage stage s
  = socket_emit (execute_stage (id stage) (file stage))
      (setSelectedStage (Some (id stage)) s).
Proof. intros H. unfold executeStage, andThen. now rewrite H. Qed.

(** X7. Starting a stage is not optimistic: [executeStage] selects the
    stage and emits [execute_stage] but writes nothing to the store, so
    until [execution_started] arrives the sidebar button stays as it was
    and a second click emits a second [execute_stage]. *)
Theorem executeStage_not_optimistic (pipeline : list Stage) (st : Stage)
        (s : State) :
  socket s = true ->
  microtasks s = [] ->
  let s' := run pipeline [ClickStage st; ClickStage st] s in
  emitted s' = (emitted s ++ [execute_of st; execute_of st])%list
  /\ executionStates s' = executionStates s
  /\ stageButton_disabled s' st = stageButton_disabled s st
  /\ selectedStage s' = Some (id st)
  /\ logs s' = logs s.
Proof.
  intros Hsock Hq s'. subst s'.
  rewrite run_promise_free by (auto; reflexivity).
  cbn [fold_left perform].
  rewrite (executeStage_connected st s Hsock).
  rewrite executeStage_connected by exact Hsock.
  unfold stageButton_disabled. simpl. rewrite <- app_assoc. repeat split.
Qed.

Lemma executeStage_not_optimistic_witness :
  let st := mkStage "clean-base" "Clean Base" "clean_bases.py" in
  let s := run pipelineStages [Mount] initialState in
  emitted (run pipelineStages [ClickStage st; ClickStage st] s)
  = [execute_stage "clean-base" "clean_bases.py";
     execute_stage "clean-base" "clean_bases.py"].
Proof.
  intros st s.
  exact (proj1 (executeStage_not_optimistic pipelineStages st s eq_refl eq_refl)).
Defined.

(** ** What the store of a reachable state looks like *)

Lemma obj_set_keys (o : Store) (k : string) (v : ExecutionState) :
  map fst (obj_set o k v)
  = if existsb (String.eqb k) (map fst o) then map fst o
    else (map fst o ++ [k])%list.
Proof.
  induction o as [|[k' v'] o IH]; simpl; auto.
  destruct (String.eqb k k'); simpl; auto.
  rewrite IH. destruct (existsb (String.eqb k) (map fst o)); reflexivity.
Qed.

Lemma obj_set_NoDup (o : Store) (k : string) (v : ExecutionState) :
  NoDup (map fst o) -> NoDup (map fst (obj_set o k v)).
Proof.
  intros H. rewrite obj_set_keys.
  destruct (existsb (String.eqb k) (map fst o)) eqn:E; auto.
  apply NoDup_snoc; auto. intros Hin.
  apply existsb_eqb_In in Hin. congruence.
Qed.

Lemma obj_set_Forall (P : ExecutionState -> Prop) (o : Store) (k : string)
      (v : ExecutionState) :
  Forall (fun kv => P (snd kv)) o -> P v ->
  Forall (fun kv => P (snd kv)) (obj_set o k v).
Proof.
  intros Ho Hv. induction o as [|[k' v'] o IH]; simpl.
  - constructor; auto.
  - inversion Ho; subst. destruct (String.eqb k k'); constructor; auto.
Qed.

Lemma obj_get_Some_In (o : Store) (k : string) (e : ExecutionState) :
  obj_get o k = Some e -> In (k, e) o.
Proof.
  induction o as [|[k' v'] o IH]; simpl; [discriminate|].
  destruct (String.eqb_spec k k').
  - intros [= <-]. subst. now left.
  - intros H. right. auto.
Qed.

Lemma store_written_set (es : Store) (k : string) (v : ExecutionState) :
  store_written es -> entry_written v -> store_written (obj_set es k v).
Proof.
  intros [H1 H2] Hv. split.
  - now apply obj_set_NoDup.
  - now apply (obj_set_Forall entry_written).
Qed.

Lemma store_written_set_all (ids : list string) (v : ExecutionState) :
  entry_written v ->
  forall es, store_written es ->
             store_written (fold_left (fun next i => obj_set next i v) ids es).
Proof.
  intros Hv. induction ids as [|i ids IH]; intros es Hs; simpl; auto.
  apply IH. now apply store_written_set.
Qed.

Lemma store_written_get (es : Store) (k : string) (e : ExecutionState) :
  store_written es -> obj_get es k = Some e -> entry_written e.
Proof.
  intros [_ H] Hg. apply obj_get_Some_In in Hg.
  rewrite Forall_forall in H. apply (H (k, e) Hg).
Qed.

Lemma entry_written_bump (e : ExecutionState) :
  entry_written e \/ e = mkES 0 idle ->
  entry_written (mkES (Z.min (progress e + 5) 95) running).
Proof.
  intros H.
  assert (Hp : 0 <= progress e <= 100 /\ progress e mod 5 = 0).
  { destruct H as [[Hs Hm] | ->]; [|simpl; split; [lia|reflexivity]].
    split; auto. destruct (status e); try contradiction; lia. }
  destruct Hp as [Hb Hm]. split; simpl.
  - lia.
  - destruct (Z.min_spec (progress e + 5) 95) as [[_ ->]|[_ ->]]; [|reflexivity].
    rewrite Z.add_mod, Hm by lia. reflexivity.
Qed.

Lemma perform_store_written (pipeline : list Stage) (a : Action) (s : State) :
  store_written (executionStates s) ->
  store_written (executionStates (perform pipeline a s)).
Proof.
  intros Hs.
  assert (Hz : forall st, st = stopped \/ st = error -> entry_written (mkES 0 st)).
  { intros st [-> | ->]; split; simpl; auto. }
  destruct a as [|text| |stage| | | | |e]; simpl; auto.
  - unfold handleInputSubmit.
    destruct (negb (trim (currentInput s) =? "") && socket s
              && truthy (waitingForInput s)); auto.
    destruct (waitingForInput s); simpl; auto.
  - unfold executeStage. destruct (negb (socket s)); simpl; auto.
  - unfold startFullPipeline, andThen.
    destruct (negb (socket s)); [simpl; auto|].
    destruct (isAutoRunning s); auto.
    now rewrite (proj1 (pipeline_loop_frame _ _)).
  - unfold shutdownAll, andThen.
    destruct (negb (socket s)); auto.
    destruct (length (runningIds (executionStates s)) =? 0)%nat; [simpl; auto|].
    simpl.
    destruct (emitted_stop_all (runningIds (executionStates s)) s)
      as (_ & _ & _ & E & _).
    rewrite E. apply store_written_set_all; auto.
  - unfold stopExecution, andThen.
    destruct (negb (socket s) || negb (truthy (selectedStage s))); auto.
    destruct (selectedStage s) as [sel|]; auto. simpl.
    apply store_written_set; auto.
  - split; constructor.
  - destruct e as [|j out ty|j p|j|d|j m|t]; simpl; auto.
    + apply store_written_set; auto. apply entry_written_bump.
      destruct (obj_get (executionStates s) j) as [c|] eqn:E; simpl; auto.
      left. exact (store_written_get _ j c Hs E).
    + apply store_written_set; auto. split; simpl; [lia|reflexivity].
    + fold (deliver (execution_complete d) s).
      rewrite deliver_complete_executionStates.
      unfold on_execution_complete, andThen, terminal_status. simpl.
      apply store_written_set; auto.
      destruct (cd_status d =? "success"); [|destruct (cd_status d =? "stopped")];
        split; simpl; auto.
    + apply store_written_set; auto.
Qed.

Lemma run_store_written (pipeline : list Stage) (tr : list Action) :
  forall s,
    store_written (executionStates s) ->
    store_written (executionStates (run pipeline tr s)).
Proof.
  induction tr as [|a tr IH]; intros s Hs; simpl; auto.
  apply IH. rewrite step_executionStates. now apply perform_store_written.
Qed.

Lemma reachable_store_written (pipeline : list Stage) (tr : list Action) :
  store_written (executionStates (run pipeline tr initialState)).
Proof. apply run_store_written. split; constructor. Qed.

Lemma run_drained (pipeline : list Stage) (tr : list Action) :
  forall s, microtasks s = [] -> microtasks (run pipeline tr s) = [].
Proof.
  induction tr as [|a tr IH]; intros s H; simpl; auto.
  apply IH, step_drained.
Qed.

(** X8. In every reachable state, whatever events were received: no
    entry of the store has status [idle]; every progress is a multiple of
    5 between 0 and 100; a running entry has progress at most 95, so a
    progress bar that is drawn is between 5 and 95 percent wide; and the
    check mark is only drawn on an entry with progress 100. *)
Theorem reachable_progress_shape (pipeline : list Stage) (tr : list Action)
        (stage : Stage) :
  let s := run pipeline tr initialState in
  (forall k e,
      obj_get (executionStates s) k = Some e ->
      status e <> idle /\ 0 <= progress e <= 100 /\ progress e mod 5 = 0
      /\ (status e = running -> progress e <= 95)
      /\ (status e = completed -> progress e = 100))
  /\ (forall w, progressBar s stage = Some w -> 5 <= w <= 95)
  /\ (checkmark s stage = true ->
      obj_get (executionStates s) (id stage) = Some (mkES 100 completed)).
Proof.
  intros s.
  pose proof (reachable_store_written pipeline tr) as Hs. fold s in Hs.
  split; [|split].
  - intros k e Hg. destruct (store_written_get _ k e Hs Hg) as [H1 H2].
    destruct (status e); try contradiction;
      repeat split; try discriminate; try lia; auto.
  - intros w. unfold progressBar.
    destruct (obj_get (executionStates s) (id stage)) as [e|] eqn:Hg; [|discriminate].
    destruct (0 <? progress e)%Z eqn:Hpos; [|discriminate].
    destruct (status e) eqn:Hst; simpl; try discriminate.
    intros [= <-]. apply Z.ltb_lt in Hpos.
    destruct (store_written_get _ _ e Hs Hg) as [H1 H2]. rewrite Hst in H1.
    assert (Hm := Z.div_mod (progress e) 5). lia.
  - unfold checkmark, status_is.
    destruct (obj_get (executionStates s) (id stage)) as [e|] eqn:Hg; [|discriminate].
    destruct (store_written_get _ _ e Hs Hg) as [H1 H2].
    destruct e as [p st]. simpl in *. destruct st; simpl; try discriminate.
    intros _. now subst.
Qed.

Lemma reachable_progress_shape_witness :
  let stage := mkStage "get-scripts" "Get Scripts" "get_scripts.py" in
  let tr := [Mount; ClickStage stage; Receive (execution_started "get-scripts");
             Receive (script_output "get-scripts" "page 1" "info")] in
  let s := run pipelineStages tr initialState in
  progressBar s stage = Some 5 /\ 5 <= 5 <= 95.
Proof.
  intros stage tr s.
  split; [reflexivity|].
  exact (proj1 (proj2 (reachable_progress_shape pipelineStages tr stage)) 5 eq_refl).
Defined.

(** ** Buttons and their callbacks *)

Lemma anyRunning_runningIds (s : State) :
  anyRunning s = negb (length (runningIds (executionStates s)) =? 0)%nat.
Proof.
  unfold anyRunning, runningIds.
  induction (executionStates s) as [|[k e] es IH]; simpl; auto.
  destruct (Status_eqb (status e) running); simpl; auto.
Qed.

Lemma runningIds_status (es : Store) (k : string) :
  NoDup (map fst es) ->
  (In k (runningIds es) <-> status_is es k running = true).
Proof.
  intros Hnd. unfold runningIds, status_is. split.
  - intros Hin. apply in_map_iff in Hin as ([k' e] & <- & Hf).
    apply filter_In in Hf as [Hin Hr]. simpl in *.
    now rewrite (obj_get_In es k' e Hnd Hin).
  - destruct (obj_get es k) as [e|] eqn:Hg; [|discriminate].
    intros Hr. apply obj_get_Some_In in Hg.
    apply in_map_iff. exists (k, e). split; auto.
    apply filter_In. auto.
Qed.

Lemma runningIds_nil (es : Store) :
  NoDup (map fst es) ->
  (forall k, status_is es k running = false) ->
  runningIds es = [].
Proof.
  intros Hnd H. destruct (runningIds es) as [|k l] eqn:E; auto.
  assert (Hin : In k (runningIds es)) by (rewrite E; now left).
  apply (runningIds_status es k Hnd) in Hin. rewrite H in Hin. discriminate.
Qed.

Lemma fold_obj_set_NoDup (ids : list string) (v : ExecutionState) :
  forall es, NoDup (map fst es) ->
             NoDup (map fst (fold_left (fun next i => obj_set next i v) ids es)).
Proof.
  induction ids as [|i ids IH]; intros es H; simpl; auto.
  apply IH. now apply obj_set_NoDup.
Qed.

Lemma shutdownAll_none_running (s : State) :
  socket s = true ->
  NoDup (map fst (executionStates s)) ->
  runningIds (executionStates (shutdownAll s)) = []
  /\ NoDup (map fst (executionStates (shutdownAll s))).
Proof.
  intros Hsock Hnd.
  destruct (runningIds (executionStates s)) as [|i0 l0] eqn:Eids.
  - unfold shutdownAll. rewrite Hsock, Eids. simpl. auto.
  - assert (Hne : runningIds (executionStates s) <> []) by (rewrite Eids; discriminate).
    destruct (shutdownAll_running s Hsock Hne) as (_ & _ & _ & _ & Hg).
    cbv zeta in Hg.
    assert (Hnd' : NoDup (map fst (executionStates (shutdownAll s)))).
    { unfold shutdownAll. rewrite Hsock, Eids. unfold andThen. simpl.
      destruct (emitted_stop_all (i0 :: l0) s) as (_ & _ & _ & E & _).
      simpl in E. rewrite E. now apply fold_obj_set_NoDup, obj_set_NoDup. }
    split; auto. apply runningIds_nil; auto.
    intros k. unfold status_is. rewrite Hg.
    destruct (existsb (String.eqb k) (runningIds (executionStates s))) eqn:Ek; auto.
    destruct (obj_get (executionStates s) k) as [e|] eqn:Hk; auto.
    destruct (Status_eqb (status e) running) eqn:Hr; auto.
    assert (Hin : In k (runningIds (executionStates s))).
    { apply runningIds_status; auto. unfold status_is. now rewrite Hk. }
    apply existsb_eqb_In in Hin. congruence.
Qed.

(** X9. In a reachable state with a socket, "Shutdown All" emits one
    [stop_stage] per stage whose entry is running, none twice and nothing
    else; afterwards no entry is running, so the button is disabled, and
    pressing it again all the same emits nothing (it logs the no-op
    notice). *)
Theorem shutdownAll_settles (pipeline : list Stage) (tr : list Action) :
  let s := run pipeline tr initialState in
  socket s = true ->
  let s' := step pipeline ClickShutdownAll s in
  (exists ids,
      emitted s' = (emitted s ++ map stop_stage ids)%list
      /\ NoDup ids
      /\ forall k, In k ids <-> status_is (executionStates s) k running = true)
  /\ anyRunning s' = false
  /\ shutdownAll_disabled s' = true
  /\ emitted (step pipeline ClickShutdownAll s') = emitted s'
  /\ logs (step pipeline ClickShutdownAll s')
     = (logs s' ++ [mkLog "No running stages to stop." "system"])%list.
Proof.
  intros s Hsock s'.
  assert (Hq : microtasks s = []) by (apply run_drained; reflexivity).
  destruct (reachable_store_written pipeline tr) as [Hnd _]. fold s in Hnd.
  assert (Es' : s' = shutdownAll s).
  { subst s'. now rewrite step_promise_free. }
  destruct (shutdownAll_none_running s Hsock Hnd) as [Hnone Hnd'].
  rewrite <- Es' in Hnone, Hnd'.
  assert (Hsock' : socket s' = true) by now apply step_socket_kept.
  assert (Hq' : microtasks s' = []) by apply step_drained.
  assert (E2 : step pipeline ClickShutdownAll s'
               = addLog "No running stages to stop." "system" s').
  { rewrite step_promise_free by auto. cbn [perform].
    unfold shutdownAll. now rewrite Hsock', Hnone. }
  split; [|split; [|split; [|split]]].
  - exists (runningIds (executionStates s)). split; [|split].
    + rewrite Es'.
      destruct (runningIds (executionStates s)) as [|i0 l0] eqn:Eids.
      * unfold shutdownAll. rewrite Hsock, Eids. simpl. now rewrite app_nil_r.
      * rewrite <- Eids. apply shutdownAll_running; auto.
        rewrite Eids; discriminate.
    + unfold runningIds. now apply NoDup_map_filter.
    + intros k. now apply runningIds_status.
  - rewrite anyRunning_runningIds, Hnone. reflexivity.
  - unfold shutdownAll_disabled. rewrite anyRunning_runningIds, Hnone. reflexivity.
  - now rewrite E2.
  - now rewrite E2.
Qed.

Lemma shutdownAll_settles_witness :
  let tr := [Mount; Receive (execution_started "get-scripts");
             Receive (execution_started "clean-base");
             Receive (execution_complete (mkComplete "clean-base" "success"));
             Receive (execution_started "channel-info")] in
  let s := run pipelineStages tr initialState in
  socket s = true
  /\ anyRunning s = true
  /\ anyRunning (step pipelineStages ClickShutdownAll s) = false.
Proof.
  intros tr s.
  split; [reflexivity|]. split; [reflexivity|].
  exact (proj1 (proj2 (shutdownAll_settles pipelineStages tr eq_refl))).
Defined.

(** X10. When the "Stop" button is enabled and the socket is there,
    [stopExecution] emits [stop_stage] for the selected stage, whose
    entry is running, and disables the button again: the entry is
    [stopped] before any answer of the backend. *)
Theorem stop_button_once (pipeline : list Stage) (s : State) :
  socket s = true ->
  microtasks s = [] ->
  stop_disabled s = false ->
  let s' := step pipeline ClickStop s in
  exists sel,
    selectedStage s = Some sel
    /\ status_is (executionStates s) sel running = true
    /\ emitted s' = (emitted s ++ [stop_stage sel])%list
    /\ status_is (executionStates s') sel stopped = true
    /\ stop_disabled s' = true.
Proof.
  intros Hsock Hq Hen s'.
  unfold stop_disabled in Hen. apply orb_false_iff in Hen as [Ht Hr].
  apply negb_false_iff in Ht, Hr.
  destruct (selectedStage s) as [sel|] eqn:Hsel; [|discriminate].
  assert (Hne : sel <> "").
  { simpl in Ht. apply negb_true_iff in Ht. now apply String.eqb_neq. }
  exists sel. subst s'. rewrite step_promise_free by auto. cbn [perform].
  rewrite (stopExecution_fields s sel) by auto.
  unfold andThen, stop_disabled. simpl. rewrite Hsel.
  unfold status_is at 2 3. rewrite obj_get_set_eq. simpl.
  rewrite orb_true_r. repeat split; auto.
Qed.

Lemma stop_button_once_witness :
  let st := mkStage "image-render" "Image Render" "make_and_render.py" in
  let s := run pipelineStages
             [Mount; ClickStage st; Receive (execution_started "image-render")]
             initialState in
  stop_disabled s = false
  /\ stop_disabled (step pipelineStages ClickStop s) = true.
Proof.
  intros st s. split; [reflexivity|].
  destruct (stop_button_once pipelineStages s eq_refl eq_refl eq_refl)
    as (sel & _ & _ & _ & _ & H).
  exact H.
Defined.

(** X11. When "Start All" is enabled, [startFullPipeline] on a non-empty
    pipeline sets the guard, logs the start, selects the first stage and
    emits its [execute_stage] and nothing else, without writing the
    store; the button is then disabled, and a further call changes
    nothing. *)
Theorem startAll_button_once (A : Stage) (rest : list Stage) (s : State) :
  microtasks s = [] ->
  startAll_disabled s = false ->
  let s' := step (A :: rest) ClickStartAll s in
  emitted s' = (emitted s ++ [execute_of A])%list
  /\ isAutoRunning s' = true
  /\ selectedStage s' = Some (id A)
  /\ logs s' = (logs s ++ [mkLog "Starting full pipeline..." "system"])%list
  /\ executionStates s' = executionStates s
  /\ startAll_disabled s' = true
  /\ step (A :: rest) ClickStartAll s' = s'.
Proof.
  intros Hq Hen s'.
  unfold startAll_disabled in Hen.
  apply orb_false_iff in Hen as [Hen Hrun].
  apply orb_false_iff in Hen as [Hsock Hauto].
  apply negb_false_iff in Hsock.
  assert (Es' : s' = (setIsAutoRunning true ;;
                      addLog "Starting full pipeline..." "system" ;;
                      setSelectedStage (Some (id A)) ;;
                      newPromise ;;
                      socket_on (nextPromise s) A rest ;;
                      setSelectedStage (Some (id A)) ;;
                      socket_emit (execute_of A)) s).
  { subst s'. unfold step, andThen. cbn [perform].
    assert (E : startFullPipeline (A :: rest) s
                = socket_emit (execute_of A)
                    (setSelectedStage (Some (id A))
                       (socket_on (nextPromise s) A rest
                          (newPromise
                             (setSelectedStage (Some (id A))
                                (addLog "Starting full pipeline..." "system"
                                   (setIsAutoRunning true s))))))).
    { unfold startFullPipeline. rewrite Hsock, Hauto. simpl.
      unfold andThen, executeStageAndWait, executeStage, andThen. simpl.
      now rewrite Hsock. }
    rewrite E. apply run_microtasks_id. simpl. exact Hq. }
  assert (Hagain : startFullPipeline (A :: rest) s' = s').
  { unfold startFullPipeline. rewrite Es'. unfold andThen. simpl.
    now rewrite Hsock. }
  split; [|split; [|split; [|split; [|split; [|split]]]]];
    try (rewrite Es'; unfold andThen; reflexivity).
  - rewrite Es'. unfold andThen, startAll_disabled. simpl.
    now rewrite orb_true_r.
  - unfold step, andThen. cbn [perform]. rewrite Hagain.
    apply run_microtasks_id. rewrite Es'. unfold andThen. simpl. exact Hq.
Qed.

Lemma startAll_button_once_witness :
  let s := run pipelineStages
             [Mount; ClickStage (mkStage "clean-base" "Clean Base" "clean_bases.py")]
             initialState in
  startAll_disabled s = false
  /\ emitted (step pipelineStages ClickStartAll s)
     = [execute_stage "clean-base" "clean_bases.py";
        execute_stage "get-scripts" "get_scripts.py"]
  /\ startAll_disabled (step pipelineStages ClickStartAll s) = true.
Proof.
  intro s.
  pose proof (startAll_button_once
                (mkStage "get-scripts" "Get Scripts" "get_scripts.py")
                (tl pipelineStages) s eq_refl eq_refl) as H.
  cbv zeta in H. destruct H as (He & _ & _ & _ & _ & Hd & _).
  split; [reflexivity|]. split; [exact He|exact Hd].
Defined.

(** ** Whole runs of the pipeline *)

(** The terminal event of the awaited last stage, with success. *)
Lemma step_complete_last (pipeline : list Stage) (p : nat) (A : Stage)
      (s : State) :
  microtasks s = [] ->
  completeListeners s = [mkObserver p A []] ->
  let s' := step pipeline
              (Receive (execution_complete (mkComplete (id A) "success"))) s in
  emitted s' = emitted s
  /\ completeListeners s' = []
  /\ microtasks s' = []
  /\ isAutoRunning s' = false
  /\ socket s' = socket s
  /\ logs s'
     = (logs s ++ [mkLog "Execution completed successfully!" "success";
                   mkLog "Pipeline completed successfully!" "success"])%list
  /\ executionStates s' = obj_set (executionStates s) (id A) (mkES 100 completed).
Proof.
  intros Hq Hl s'. subst s'.
  unfold step, andThen. cbn [perform].
  rewrite (deliver_complete_single _ (mkComplete (id A) "success") _ Hl eq_refl).
  destruct s; simpl in *; subst.
  rewrite (run_microtasks_single
             (job_of (mkComplete (id A) "success") (mkObserver p A [])));
    simpl; rewrite ?Nat.eqb_refl; try reflexivity.
  unfold resume, andThen; simpl. rewrite <- app_assoc. simpl.
  repeat split.
Qed.

Lemma in_ids_dec (k : string) (l : list Stage) :
  {In k (map id l)} + {~ In k (map id l)}.
Proof. apply in_dec, string_dec. Qed.

Lemma run_stage_run (pipeline : list Stage) (A : Stage) (evs : list InEvent)
      (s : State) :
  run pipeline (stage_run (A, evs)) s
  = step pipeline (Receive (execution_complete (mkComplete (id A) "success")))
      (run pipeline (map Receive evs) s).
Proof. unfold stage_run. simpl fst. simpl snd. now rewrite run_app. Qed.

(** From a state in which stage A is awaited, with successful stages
    [runs] and then B still to come: once A and [runs] have run to
    success, B has been started and is awaited. *)
Lemma run_successes (pipeline : list Stage) (runs : list (Stage * list InEvent)) :
  forall (A : Stage) (evs : list InEvent) (p : nat) (s : State)
         (B : Stage) (tail : list Stage),
    socket s = true ->
    microtasks s = [] ->
    completeListeners s = [mkObserver p A (map fst runs ++ B :: tail)] ->
    forallb well_behaved ((A, evs) :: runs) = true ->
    let s' := run pipeline (flat_map stage_run ((A, evs) :: runs)) s in
    (exists p', completeListeners s' = [mkObserver p' B tail])
    /\ emitted s' = (emitted s ++ map execute_of (map fst runs ++ [B]))%list
    /\ socket s' = true
    /\ microtasks s' = []
    /\ isAutoRunning s' = isAutoRunning s
    /\ (forall k, ~ In k (map id (A :: map fst runs)) ->
          obj_get (executionStates s') k = obj_get (executionStates s) k)
    /\ (forall st, In st (A :: map fst runs) ->
          obj_get (executionStates s') (id st) = Some (mkES 100 completed)).
Proof.
  induction runs as [|[A2 ev2] runs IH];
    intros A evs p s B tail Hsock Hq Hl Hwb s'; subst s';
    simpl in Hwb; apply andb_true_iff in Hwb as [HA Hwb];
    unfold well_behaved in HA; simpl in HA; simpl in Hl.
  - simpl flat_map. rewrite app_nil_r, run_stage_run.
    destruct (run_nonterminal pipeline (id A) evs s HA Hq) as (R & G).
    set (s1 := run pipeline (map Receive evs) s) in *.
    destruct R as [E1 L1 Q1 K1 A1 N1 _].
    destruct (step_complete_success pipeline p A B tail s1)
      as (E2 & L2 & Q2 & K2 & A2 & X2); try congruence.
    set (s2 := step pipeline
                 (Receive (execution_complete (mkComplete (id A) "success"))) s1) in *.
    split; [eexists; exact L2|].
    split; [rewrite E2, E1; reflexivity|].
    split; [assumption|]. split; [assumption|]. split; [congruence|].
    split.
    + intros k Hk. simpl in Hk. rewrite X2, obj_get_set_neq by tauto.
      apply G. intuition congruence.
    + intros st [<-|[]]. rewrite X2. apply obj_get_set_eq.
  - change (flat_map stage_run ((A, evs) :: (A2, ev2) :: runs))
      with (stage_run (A, evs) ++ flat_map stage_run ((A2, ev2) :: runs))%list.
    rewrite run_app, run_stage_run.
    destruct (run_nonterminal pipeline (id A) evs s HA Hq) as (R & G).
    set (s1 := run pipeline (map Receive evs) s) in *.
    destruct R as [E1 L1 Q1 K1 A1 N1 _].
    destruct (step_complete_success pipeline p A A2
                (map fst runs ++ B :: tail)%list s1)
      as (E2 & L2 & Q2 & K2 & Au2 & X2); try congruence.
    set (s2 := step pipeline
                 (Receive (execution_complete (mkComplete (id A) "success"))) s1) in *.
    destruct (IH A2 ev2 (nextPromise s1) s2 B tail K2 Q2 L2 Hwb)
      as (L3 & E3 & K3 & Q3 & A3 & G3 & C3).
    set (s3 := run pipeline (flat_map stage_run ((A2, ev2) :: runs)) s2) in *.
    split; [exact L3|].
    split; [rewrite E3, E2, E1, <- app_assoc; reflexivity|].
    split; [assumption|]. split; [assumption|]. split; [congruence|].
    split.
    + intros k Hk. simpl in Hk.
      rewrite G3 by (simpl; tauto).
      rewrite X2, obj_get_set_neq by tauto. apply G. intuition congruence.
    + intros st [<-|Hin]; [|now apply C3].
      destruct (in_ids_dec (id A) (A2 :: map fst runs)) as [Hin|Hnin].
      * apply in_map_iff in Hin as (st' & Eid & Hin').
        rewrite <- Eid. now apply C3.
      * rewrite G3 by assumption. rewrite X2. apply obj_get_set_eq.
Qed.

(** "Start All" from rest, then a prefix of stages running to success:
    the next stage has been started and is awaited. *)
Lemma start_to_awaiting (pre : list (Stage * list InEvent)) (B : Stage)
      (tail : list Stage) (s0 : State) :
  socket s0 = true ->
  isAutoRunning s0 = false ->
  completeListeners s0 = [] ->
  microtasks s0 = [] ->
  forallb well_behaved pre = true ->
  let pipeline := (map fst pre ++ B :: tail)%list in
  let s := run pipeline (ClickStartAll :: flat_map stage_run pre) s0 in
  (exists p, completeListeners s = [mkObserver p B tail])
  /\ emitted s = (emitted s0 ++ map execute_of (map fst pre ++ [B]))%list
  /\ socket s = true
  /\ microtasks s = []
  /\ isAutoRunning s = true
  /\ (forall k, ~ In k (map id (map fst pre)) ->
        obj_get (executionStates s) k = obj_get (executionStates s0) k)
  /\ (forall st, In st (map fst pre) ->
        obj_get (executionStates s) (id st) = Some (mkES 100 completed)).
Proof.
  intros Hsock Hauto Hl0 Hq0 Hwb pipeline s. subst s.
  rewrite run_cons.
  destruct pre as [|[A evs] runs].
  - simpl flat_map. subst pipeline. simpl map. simpl app.
    change (run (B :: tail) [] (step (B :: tail) ClickStartAll s0))
      with (step (B :: tail) ClickStartAll s0).
    destruct (step_startFullPipeline B tail s0 Hsock Hauto Hq0)
      as (E1 & L1 & Q1 & K1 & A1 & X1).
    rewrite Hl0 in L1. simpl in L1.
    split; [eexists; exact L1|].
    split; [exact E1|]. split; [assumption|]. split; [assumption|].
    split; [assumption|]. split.
    + intros k _. now rewrite X1.
    + intros st [].
  - subst pipeline. simpl map. simpl app.
    destruct (step_startFullPipeline A (map fst runs ++ B :: tail)%list s0
                Hsock Hauto Hq0) as (E1 & L1 & Q1 & K1 & A1 & X1).
    rewrite Hl0 in L1. simpl in L1.
    set (pl := A :: (map fst runs ++ B :: tail)%list) in *.
    set (s1 := step pl ClickStartAll s0) in *.
    destruct (run_successes pl runs A evs (nextPromise s0) s1 B tail K1 Q1 L1 Hwb)
      as (L2 & E2 & K2 & Q2 & A2 & G2 & C2).
    split; [exact L2|].
    split; [rewrite E2, E1, <- app_assoc; reflexivity|].
    split; [assumption|]. split; [assumption|]. split; [congruence|].
    split.
    + intros k Hk. rewrite G2 by exact Hk. now rewrite X1.
    + exact C2.
Qed.

(** X12. "Start All" from rest on a pipeline whose stages each send
    their non-terminal events and then complete with success: the
    messages emitted are the [execute_stage] of every stage, in catalog
    order, each sent only after the stage before it completed; at the end
    every stage of the pipeline is [completed]/100, the entries of other
    stages are untouched, the last log entry is
    "Pipeline completed successfully!", the guard is cleared and no
    observer is left. *)
Theorem pipeline_runs_to_success (pre : list (Stage * list InEvent))
        (L : Stage) (evL : list InEvent) (s0 : State) :
  socket s0 = true ->
  isAutoRunning s0 = false ->
  completeListeners s0 = [] ->
  microtasks s0 = [] ->
  forallb well_behaved (pre ++ [(L, evL)]) = true ->
  let runs := (pre ++ [(L, evL)])%list in
  let pipeline := map fst runs in
  let s' := run pipeline (ClickStartAll :: flat_map stage_run runs) s0 in
  emitted s' = (emitted s0 ++ map execute_of pipeline)%list
  /\ (forall st, In st pipeline ->
        obj_get (executionStates s') (id st) = Some (mkES 100 completed))
  /\ (forall k, ~ In k (map id pipeline) ->
        obj_get (executionStates s') k = obj_get (executionStates s0) k)
  /\ (exists l,
         logs s' = (l ++ [mkLog "Pipeline completed successfully!" "success"])%list)
  /\ isAutoRunning s' = false
  /\ completeListeners s' = [].
Proof.
  intros Hsock Hauto Hl0 Hq0 Hwb runs pipeline s'.
  rewrite forallb_app in Hwb. apply andb_true_iff in Hwb as [Hpre HL].
  simpl in HL. rewrite andb_true_r in HL. unfold well_behaved in HL. simpl in HL.
  assert (Epl : pipeline = (map fst pre ++ L :: [])%list).
  { subst pipeline runs. now rewrite map_app. }
  assert (Es' : s' = run pipeline (stage_run (L, evL))
                       (run pipeline (ClickStartAll :: flat_map stage_run pre) s0)).
  { subst s' runs. rewrite flat_map_app. simpl flat_map. rewrite app_nil_r.
    now rewrite app_comm_cons, run_app. }
  rewrite Epl in Es'.
  destruct (start_to_awaiting pre L [] s0 Hsock Hauto Hl0 Hq0 Hpre)
    as ((p & L1) & E1 & K1 & Q1 & A1 & G1 & C1).
  set (s1 := run (map fst pre ++ [L])%list
               (ClickStartAll :: flat_map stage_run pre) s0) in *.
  rewrite run_stage_run in Es'.
  destruct (run_nonterminal (map fst pre ++ [L])%list (id L) evL s1 HL Q1) as (R & G2).
  set (s2 := run (map fst pre ++ [L])%list (map Receive evL) s1) in *.
  destruct R as [E2 L2 Q2 K2 A2 N2 _].
  destruct (step_complete_last (map fst pre ++ [L])%list p L s2)
    as (E3 & L3 & Q3 & A3 & K3 & Lg3 & X3); try congruence.
  rewrite Es', Epl. clear Es'.
  split; [|split; [|split; [|split; [|split]]]].
  - rewrite E3, E2, E1. reflexivity.
  - intros st Hin. rewrite X3.
    destruct (String.eqb_spec (id L) (id st)) as [Eid|Hne].
    + rewrite Eid. apply obj_get_set_eq.
    + rewrite obj_get_set_neq by assumption.
      rewrite G2 by congruence.
      apply in_app_or in Hin as [Hin|[<-|[]]]; [now apply C1|congruence].
  - intros k Hk. rewrite map_app, in_app_iff in Hk. simpl in Hk.
    rewrite X3, obj_get_set_neq by tauto.
    rewrite G2 by intuition congruence. apply G1. tauto.
  - eexists. rewrite Lg3.
    change [mkLog "Execution completed successfully!" "success";
            mkLog "Pipeline completed successfully!" "success"]
      with ([mkLog "Execution completed successfully!" "success"]
            ++ [mkLog "Pipeline completed successfully!" "success"])%list.
    rewrite app_assoc. reflexivity.
  - assumption.
  - assumption.
Qed.

Lemma pipeline_runs_to_success_witness :
  let s0 := run pipelineStages [Mount] initialState in
  let ev i := [execution_started i; script_output i "working" "info"] in
  let pre := map (fun st => (st, ev (id st))) (removelast pipelineStages) in
  let L := mkStage "image-render" "Image Render" "make_and_render.py" in
  let runs := (pre ++ [(L, ev "image-render")])%list in
  let s' := run (map fst runs) (ClickStartAll :: flat_map stage_run runs) s0 in
  map fst runs = pipelineStages
  /\ emitted s' = map execute_of pipelineStages
  /\ isAutoRunning s' = false.
Proof.
  intros s0 ev pre L runs s'.
  pose proof (pipeline_runs_to_success pre L (ev "image-render") s0
                eq_refl eq_refl eq_refl eq_refl eq_refl) as H.
  cbv zeta in H. destruct H as (He & _ & _ & _ & Ha & _).
  split; [reflexivity|]. split; [exact He|exact Ha].
Defined.

(** X13. "Start All" from rest; a prefix of the pipeline runs to success
    and the next stage B completes with any outcome other than success
    ([stopped] included).  The messages emitted are the [execute_stage]
    of the prefix and of B, in order, and nothing for the stages after
    B; B's entry holds the status of its outcome; the last log entry is
    "Pipeline halted at <name of B>"; the guard is cleared, no observer
    is left and later events emit nothing. *)
Theorem pipeline_halts_at_first_failure (pre : list (Stage * list InEvent))
        (B : Stage) (evB : list InEvent) (tail : list Stage)
        (outcome : string) (s0 : State) :
  socket s0 = true ->
  isAutoRunning s0 = false ->
  completeListeners s0 = [] ->
  microtasks s0 = [] ->
  forallb well_behaved pre = true ->
  forallb (nonterminal_for (id B)) evB = true ->
  outcome <> "success" ->
  let pipeline := (map fst pre ++ B :: tail)%list in
  let tr :=
    (ClickStartAll :: flat_map stage_run pre ++ map Receive evB
     ++ [Receive (execution_complete (mkComplete (id B) outcome))])%list in
  let s' := run pipeline tr s0 in
  emitted s' = (emitted s0 ++ map execute_of (map fst pre ++ [B]))%list
  /\ obj_get (executionStates s') (id B)
     = Some (mkES 100 (terminal_status outcome))
  /\ (forall st, In st (map fst pre) -> id st <> id B ->
        obj_get (executionStates s') (id st) = Some (mkES 100 completed))
  /\ (exists l,
         logs s' = (l ++ [mkLog ("Pipeline halted at " ++ name B) "error"])%list)
  /\ isAutoRunning s' = false
  /\ completeListeners s' = []
  /\ (forall later,
         emitted (run pipeline (map Receive later) s') = emitted s').
Proof.
  intros Hsock Hauto Hl0 Hq0 Hpre HB Hout pipeline tr s'.
  destruct (start_to_awaiting pre B tail s0 Hsock Hauto Hl0 Hq0 Hpre)
    as ((p & L1) & E1 & K1 & Q1 & A1 & G1 & C1).
  fold pipeline in L1, E1, K1, Q1, A1, G1, C1.
  set (s1 := run pipeline (ClickStartAll :: flat_map stage_run pre) s0) in *.
  destruct (run_nonterminal pipeline (id B) evB s1 HB Q1) as (R & G2).
  set (s2 := run pipeline (map Receive evB) s1) in *.
  destruct R as [E2 L2 Q2 K2 A2 N2 _].
  destruct (step_complete_failure pipeline p B tail outcome s2)
    as (E3 & L3 & Q3 & A3 & Lg3 & X3); try congruence.
  set (s3 := step pipeline
               (Receive (execution_complete (mkComplete (id B) outcome))) s2) in *.
  assert (Es' : s' = s3).
  { subst s' tr. rewrite app_comm_cons, run_app. fold s1.
    rewrite run_app. fold s2. reflexivity. }
  rewrite Es'. clear Es'.
  split; [|split; [|split; [|split; [|split; [|split]]]]].
  - rewrite E3, E2, E1. reflexivity.
  - rewrite X3. apply obj_get_set_eq.
  - intros st Hin Hne. rewrite X3, obj_get_set_neq by congruence.
    rewrite G2 by assumption. now apply C1.
  - exists (logs s2 ++ [mkLog "Execution failed!" "error"])%list.
    rewrite Lg3, <- app_assoc. reflexivity.
  - assumption.
  - assumption.
  - intros later. now apply run_receive_quiescent.
Qed.

Lemma pipeline_halts_at_first_failure_witness :
  let s0 := run pipelineStages [Mount] initialState in
  let ev i := [execution_started i; script_output i "working" "info"] in
  let pre := map (fun st => (st, ev (id st))) (firstn 2 pipelineStages) in
  let B := mkStage "image-suggestions" "Image Suggestions" "suggestion_generator.py" in
  let tail := skipn 3 pipelineStages in
  let tr :=
    (ClickStartAll :: flat_map stage_run pre ++ map Receive (ev "image-suggestions")
     ++ [Receive (execution_complete (mkComplete "image-suggestions" "stopped"))])%list in
  let s' := run pipelineStages tr s0 in
  (map fst pre ++ B :: tail)%list = pipelineStages
  /\ emitted s' = map execute_of (firstn 3 pipelineStages)
  /\ obj_get (executionStates s') "image-suggestions" = Some (mkES 100 stopped)
  /\ isAutoRunning s' = false.
Proof.
  intros s0 ev pre B tail tr s'.
  assert (Hout : "stopped" <> "success") by discriminate.
  pose proof (pipeline_halts_at_first_failure pre B (ev "image-suggestions") tail
                "stopped" s0 eq_refl eq_refl eq_refl eq_refl eq_refl eq_refl Hout)
    as H.
  cbv zeta in H. destruct H as (He & Hb & _ & _ & Ha & _).
  split; [reflexivity|]. split; [exact He|]. split; [exact Hb|exact Ha].
Defined.

(** ** What resumes a run, and what does not *)

Lemma fold_handleComplete_none (d : CompleteData) (os : list Observer) :
  forall s,
    existsb (matches d) os = false ->
    fold_left (fun s' o => handleComplete o d s') os s = s.
Proof.
  induction os as [|o os IH]; intros s H; simpl; auto.
  simpl in H. apply orb_false_iff in H as [Ho Hos].
  unfold handleComplete at 2. fold (matches d o). rewrite Ho. simpl.
  now apply IH.
Qed.

Lemma step_not_waking (pipeline : list Stage) (e : InEvent) (s : State) :
  wakes s e = false ->
  microtasks s = [] ->
  same_run s (step pipeline (Receive e) s).
Proof.
  intros Hw Hq.
  assert (H : same_run s (deliver e s)).
  { destruct e as [|j out ty|j p|j|d|j m|t]; try (now split).
    simpl in Hw. cbn [deliver].
    rewrite fold_handleComplete_none by exact Hw. now split. }
  unfold step, andThen. cbn [perform].
  rewrite run_microtasks_id; auto.
  rewrite (sr_microtasks _ _ H). exact Hq.
Qed.

(** X14. Only an [execution_complete] for a stage some observer awaits
    resumes a pipeline run.  Any sequence of other events, among them
    [execution_error] for the awaited stage itself and
    [execution_complete] for other stages, leaves the observers, the
    guard and the emitted messages as they are: after [execution_error]
    the run stays suspended with [isAutoRunning] set. *)
Theorem run_suspended_until_complete (pipeline : list Stage)
        (evs : list InEvent) (s : State) :
  microtasks s = [] ->
  forallb (fun e => negb (wakes s e)) evs = true ->
  let s' := run pipeline (map Receive evs) s in
  completeListeners s' = completeListeners s
  /\ isAutoRunning s' = isAutoRunning s
  /\ emitted s' = emitted s
  /\ resolved s' = resolved s.
Proof.
  revert s. induction evs as [|e evs IH]; intros s Hq Hall s'; subst s'.
  - simpl. auto.
  - simpl in Hall. apply andb_true_iff in Hall as [He Hall].
    apply negb_true_iff in He.
    destruct (step_not_waking pipeline e s He Hq) as [E L Q K A N R].
    simpl map. rewrite run_cons.
    set (s1 := step pipeline (Receive e) s) in *.
    assert (Hall' : forallb (fun e0 => negb (wakes s1 e0)) evs = true).
    { rewrite <- Hall. clear -L. induction evs as [|e0 evs IHe]; simpl; auto.
      rewrite IHe. unfold wakes. now rewrite L. }
    destruct (IH s1 (eq_trans Q Hq) Hall') as (L' & A' & E' & R').
    repeat split; congruence.
Qed.

Lemma run_suspended_until_complete_witness :
  let s := run pipelineStages
             [Mount; ClickStartAll; Receive (execution_started "get-scripts")]
             initialState in
  let s' := run pipelineStages
              (map Receive
                 [execution_error "get-scripts" "exit code 1";
                  execution_complete (mkComplete "clean-base" "error")]) s in
  isAutoRunning s = true
  /\ completeListeners s <> []
  /\ isAutoRunning s' = true
  /\ completeListeners s' = completeListeners s
  /\ emitted s' = [execute_stage "get-scripts" "get_scripts.py"].
Proof.
  intros s s'.
  pose proof (run_suspended_until_complete pipelineStages
                [execution_error "get-scripts" "exit code 1";
                 execution_complete (mkComplete "clean-base" "error")]
                s eq_refl eq_refl) as H.
  cbv zeta in H. destruct H as (Hl & Ha & He & _).
  split; [reflexivity|]. split; [discriminate|].
  split; [exact (eq_trans Ha eq_refl)|].
  split; [exact Hl|exact (eq_trans He eq_refl)].
Defined.

(** X15. "Shutdown All" clears the guard but does not cancel a run in
    flight: the observer stays registered, so when the awaited stage
    then completes with success the loop starts the next stage, with
    [isAutoRunning] off. *)
Theorem shutdownAll_keeps_run (pipeline : list Stage) (p : nat)
        (B C : Stage) (tail : list Stage) (s : State) :
  socket s = true ->
  microtasks s = [] ->
  completeListeners s = [mkObserver p B (C :: tail)] ->
  status_is (executionStates s) (id B) running = true ->
  let s1 := step pipeline ClickShutdownAll s in
  let s2 := step pipeline
              (Receive (execution_complete (mkComplete (id B) "success"))) s1 in
  isAutoRunning s1 = false
  /\ completeListeners s1 = completeListeners s
  /\ emitted s2
     = (emitted s ++ map stop_stage (runningIds (executionStates s))
        ++ [execute_of C])%list
  /\ isAutoRunning s2 = false
  /\ (exists p', completeListeners s2 = [mkObserver p' C tail]).
Proof.
  intros Hsock Hq Hl HB s1 s2.
  assert (Hne : runningIds (executionStates s) <> []).
  { unfold status_is in HB.
    destruct (obj_get (executionStates s) (id B)) as [e|] eqn:Hg; [|discriminate].
    apply obj_get_Some_In in Hg. intros E.
    assert (Hin : In (id B) (runningIds (executionStates s))).
    { unfold runningIds. apply in_map_iff. exists (id B, e). split; auto.
      apply filter_In. auto. }
    rewrite E in Hin. contradiction. }
  assert (E1 : s1 = shutdownAll s).
  { subst s1. now rewrite step_promise_free. }
  destruct (shutdownAll_running s Hsock Hne) as (He & _ & _ & Ha & _).
  cbv zeta in He, Ha. rewrite <- E1 in He, Ha.
  destruct (perform_promise_free pipeline ClickShutdownAll s eq_refl)
    as (L1 & _ & _ & Q1).
  cbn [perform] in L1, Q1. rewrite <- E1 in L1, Q1.
  assert (K1 : socket s1 = true) by now apply step_socket_kept.
  destruct (step_complete_success pipeline p B C tail s1)
    as (E2 & L2 & _ & _ & A2 & _); try congruence.
  fold s2 in E2, L2, A2.
  split; [assumption|]. split; [assumption|].
  split; [rewrite E2, He, <- app_assoc; reflexivity|].
  split; [congruence|]. eexists; exact L2.
Qed.

Lemma shutdownAll_keeps_run_witness :
  let s := run pipelineStages
             [Mount; ClickStartAll; Receive (execution_started "get-scripts")]
             initialState in
  let s1 := step pipelineStages ClickShutdownAll s in
  let s2 := step pipelineStages
              (Receive (execution_complete (mkComplete "get-scripts" "success"))) s1 in
  isAutoRunning s = true
  /\ isAutoRunning s1 = false
  /\ emitted s2 = [execute_stage "get-scripts" "get_scripts.py";
                   stop_stage "get-scripts";
                   execute_stage "srt-generator" "srt_generator.py"].
Proof.
  intros s s1 s2.
  pose proof (shutdownAll_keeps_run pipelineStages 0
                (mkStage "get-scripts" "Get Scripts" "get_scripts.py")
                (mkStage "srt-generator" "SRT Generator" "srt_generator.py")
                (skipn 2 pipelineStages) s eq_refl eq_refl eq_refl eq_refl) as H.
  cbv zeta in H. destruct H as (Ha & _ & He & _).
  split; [reflexivity|]. split; [exact Ha|exact He].
Defined.

(** ** What is emitted *)

Lemma emits_ok_refl (s s' : State) : emitted s' = emitted s -> emits_ok s s'.
Proof. intros E. exists []. rewrite app_nil_r. auto. Qed.

Lemma emits_ok_trans (s1 s2 s3 : State) :
  socket s2 = socket s1 -> emits_ok s1 s2 -> emits_ok s2 s3 -> emits_ok s1 s3.
Proof.
  intros K (n1 & E1 & O1 & Z1) (n2 & E2 & O2 & Z2).
  exists (n1 ++ n2)%list. split; [|split].
  - now rewrite E2, E1, app_assoc.
  - now rewrite forallb_app, O1, O2.
  - intros H. rewrite Z1, Z2; auto. congruence.
Qed.

Lemma resume_emits (j : Job) (s : State) : emits_ok s (resume j s).
Proof.
  unfold resume, pipeline_loop, executeStageAndWait, executeStage, andThen.
  destruct (negb (cd_status (job_result j) =? "success")); simpl.
  - now apply emits_ok_refl.
  - destruct (job_rest j) as [|st r]; simpl; [now apply emits_ok_refl|].
    destruct (socket s) eqn:E; simpl; rewrite ?E; simpl.
    + eexists. split; [reflexivity|]. split; [reflexivity|].
      unfold emits_ok. simpl. congruence.
    + now apply emits_ok_refl.
Qed.

Lemma fold_resume_emits (js : list Job) :
  forall s, emits_ok s (fold_left (fun s' j => resume j s') js s).
Proof.
  induction js as [|j js IH]; intros s; simpl.
  - now apply emits_ok_refl.
  - apply (emits_ok_trans s (resume j s)); auto using resume_emits.
    apply resume_frame.
Qed.

Lemma run_queue_emits (s : State) : emits_ok s (run_queue s).
Proof.
  unfold run_queue.
  destruct (fold_resume_emits (microtasks s) (take_microtasks s)) as (n & E & O & Z).
  exists n. auto.
Qed.

Lemma run_microtasks_emits (s : State) : emits_ok s (run_microtasks s).
Proof.
  unfold run_microtasks, andThen.
  apply (emits_ok_trans s (run_queue s)); auto using run_queue_emits.
  apply run_queue_frame.
Qed.

Lemma perform_socket (pipeline : list Stage) (a : Action) (s : State) :
  a <> Mount -> socket (perform pipeline a s) = socket s.
Proof.
  intros Ha. destruct a as [|text| |stage| | | | |e]; simpl; auto; try congruence.
  - unfold handleInputSubmit.
    destruct (negb (trim (currentInput s) =? "") && socket s
              && truthy (waitingForInput s)); auto.
    destruct (waitingForInput s); simpl; auto.
  - unfold executeStage. destruct (negb (socket s)); simpl; auto.
  - unfold startFullPipeline, andThen.
    destruct (negb (socket s)); [simpl; auto|].
    destruct (isAutoRunning s); auto.
    now rewrite (proj2 (proj2 (proj2 (pipeline_loop_frame _ _)))).
  - unfold shutdownAll, andThen.
    destruct (negb (socket s)); auto.
    destruct (length (runningIds (executionStates s)) =? 0)%nat; [simpl; auto|].
    simpl.
    destruct (emitted_stop_all (runningIds (executionStates s)) s)
      as (_ & _ & _ & _ & _ & _ & E & _).
    now rewrite E.
  - unfold stopExecution, andThen.
    destruct (negb (socket s) || negb (truthy (selectedStage s))); auto.
    destruct (selectedStage s) as [sel|]; auto.
  - destruct e as [|j out ty|j p|j|d|j m|t]; simpl; auto.
    rewrite (fold_handleComplete_frame socket); auto.
    intros; apply handleComplete_frame.
Qed.

Lemma perform_emits (pipeline : list Stage) (a : Action) (s : State) :
  emits_ok s (perform pipeline a s).
Proof.
  destruct a as [|text| |stage| | | | |e]; simpl;
    try (now apply emits_ok_refl).
  - unfold handleInputSubmit.
    destruct (socket s) eqn:Hsock;
      [|rewrite andb_false_r; now apply emits_ok_refl].
    destruct (waitingForInput s) as [w|] eqn:Hw;
      [|simpl; rewrite andb_false_r; now apply emits_ok_refl].
    destruct (trim (currentInput s) =? "") eqn:Ht; [now apply emits_ok_refl|].
    simpl. destruct (w =? "") eqn:Ew; [now apply emits_ok_refl|]. simpl.
    unfold andThen. exists [send_input w (trim (currentInput s))].
    split; [reflexivity|]. split; [|congruence].
    destruct (trim_clean (currentInput s)) as [Hs He].
    simpl. now rewrite Ew, Ht, Hs, He.
  - unfold executeStage, andThen.
    destruct (socket s) eqn:Hsock; simpl; [|now apply emits_ok_refl].
    eexists. split; [reflexivity|]. split; [reflexivity|congruence].
  - unfold startFullPipeline, andThen.
    destruct (socket s) eqn:Hsock; simpl; [|now apply emits_ok_refl].
    destruct (isAutoRunning s); [now apply emits_ok_refl|].
    unfold pipeline_loop, executeStageAndWait, executeStage, andThen.
    destruct pipeline as [|st r]; simpl; [now apply emits_ok_refl|].
    rewrite Hsock. simpl.
    eexists. split; [reflexivity|]. split; [reflexivity|congruence].
  - unfold shutdownAll, andThen.
    destruct (socket s) eqn:Hsock; simpl; [|now apply emits_ok_refl].
    destruct (length (runningIds (executionStates s)) =? 0)%nat;
      [now apply emits_ok_refl|]. simpl.
    destruct (emitted_stop_all (runningIds (executionStates s)) s) as (E & _).
    exists (map stop_stage (runningIds (executionStates s))).
    split; [exact E|]. split; [|congruence].
    clear E. induction (runningIds (executionStates s)); simpl; auto.
  - unfold stopExecution, andThen.
    destruct (socket s) eqn:Hsock; simpl; [|now apply emits_ok_refl].
    destruct (selectedStage s) as [sel|]; simpl; [|now apply emits_ok_refl].
    destruct (negb (negb (sel =? ""))); [now apply emits_ok_refl|]. simpl.
    eexists. split; [reflexivity|]. split; [reflexivity|congruence].
  - apply emits_ok_refl. fold (deliver e s).
    destruct e as [|j out ty|j p|j|d|j m|t]; simpl; auto.
    rewrite (fold_handleComplete_frame emitted); auto.
    intros; apply handleComplete_frame.
Qed.

Lemma step_emits (pipeline : list Stage) (a : Action) (s : State) :
  a <> Mount -> emits_ok s (step pipeline a s).
Proof.
  intros Ha. unfold step, andThen.
  apply (emits_ok_trans s (perform pipeline a s));
    auto using perform_emits, run_microtasks_emits, perform_socket.
Qed.

Lemma step_mount (pipeline : list Stage) (s : State) :
  microtasks s = [] -> step pipeline Mount s = setSocket true s.
Proof. intros H. now rewrite step_promise_free. Qed.

Lemma run_snoc (pipeline : list Stage) (tr : list Action) (a : Action) (s : State) :
  run pipeline (tr ++ [a]) s = step pipeline a (run pipeline tr s).
Proof. now rewrite run_app. Qed.

(** X16. Every [send_input] ever emitted is addressed to a non-empty
    stage id and carries a non-empty text with no white space at either
    end. *)
Theorem emitted_inputs_trimmed (pipeline : list Stage) (tr : list Action) :
  forallb send_ok (emitted (run pipeline tr initialState)) = true.
Proof.
  induction tr as [|a tr IH] using rev_ind; [reflexivity|].
  rewrite run_snoc.
  set (s := run pipeline tr initialState) in *.
  destruct (perform_emits pipeline a s) as (n1 & E1 & O1 & _).
  destruct (run_microtasks_emits (perform pipeline a s)) as (n2 & E2 & O2 & _).
  unfold step, andThen. rewrite E2, E1, !forallb_app, IH, O1, O2. reflexivity.
Qed.

(** X17. Before the mount effect has stored the socket nothing has been
    emitted, no observer is registered, the guard is off and no stage is
    selected, whatever was clicked. *)
Theorem nothing_before_socket (pipeline : list Stage) (tr : list Action) :
  let s := run pipeline tr initialState in
  socket s = false ->
  emitted s = [] /\ completeListeners s = []
  /\ isAutoRunning s = false /\ selectedStage s = None.
Proof.
  induction tr as [|a tr IH] using rev_ind; intros s Hsock; [repeat split|].
  subst s. rewrite run_snoc in *.
  set (s := run pipeline tr initialState) in *.
  assert (Hq : microtasks s = []) by (apply run_drained; reflexivity).
  assert (Hs : socket s = false).
  { destruct (socket s) eqn:E; auto.
    rewrite (step_socket_kept pipeline a s E) in Hsock. discriminate. }
  destruct (IH Hs) as (He & Hl & Ha & Hsel).
  assert (Hm : a <> Mount).
  { intros ->. rewrite step_mount in Hsock by assumption. discriminate. }
  destruct (step_emits pipeline a s Hm) as (n & En & _ & Zn).
  split; [rewrite En, He, (Zn Hs); reflexivity|].
  clear En Zn n.
  destruct (promise_free a) eqn:Ea.
  - rewrite step_promise_free by assumption.
    destruct (perform_promise_free pipeline a s Ea) as (L & _).
    split; [congruence|].
    destruct a as [|text| |stage| | | | |e]; simpl in Ea; try discriminate;
      cbn [perform].
    + congruence.
    + simpl. auto.
    + unfold handleInputSubmit. rewrite Hs, andb_false_r. auto.
    + unfold executeStage. rewrite Hs. simpl. auto.
    + unfold shutdownAll. rewrite Hs. simpl. auto.
    + unfold stopExecution. rewrite Hs. simpl. auto.
    + simpl. auto.
    + destruct e; simpl; auto. discriminate.
  - destruct a as [|text| |stage| | | | |e]; try discriminate.
    + unfold step, andThen. cbn [perform]. unfold startFullPipeline.
      rewrite Hs. simpl. rewrite run_microtasks_id by (simpl; assumption).
      simpl. auto.
    + destruct e; try discriminate.
      unfold step, andThen. cbn [perform deliver]. rewrite Hl. cbn [fold_left].
      rewrite run_microtasks_id by (simpl; assumption).
      simpl. auto.
Qed.

Lemma nothing_before_socket_witness :
  let tr := [ClickStage (mkStage "clean-base" "Clean Base" "clean_bases.py");
             ClickStartAll; ClickShutdownAll; Change "y"; Submit] in
  emitted (run pipelineStages tr initialState) = []
  /\ logs (run pipelineStages tr initialState)
     = [mkLog "Not connected to backend" "error";
        mkLog "Not connected to backend" "error"].
Proof.
  intro tr. split; [|reflexivity].
  exact (proj1 (nothing_before_socket pipelineStages tr eq_refl)).
Defined.

(** ** The guard *)

Lemma resume_guard (j : Job) (s : State) :
  socket s = true ->
  microtasks (resume j s) = microtasks s
  /\ socket (resume j s) = true
  /\ (isAutoRunning (resume j s) = true -> completeListeners (resume j s) <> []).
Proof.
  intros Hsock.
  unfold resume, pipeline_loop, executeStageAndWait, executeStage, andThen.
  destruct (negb (cd_status (job_result j) =? "success")); simpl.
  - repeat split; auto. discriminate.
  - destruct (job_rest j) as [|st r]; simpl.
    + repeat split; auto. discriminate.
    + rewrite Hsock. simpl. rewrite Hsock. simpl. repeat split; auto.
      intros _ E. now apply app_eq_nil in E as [_ E].
Qed.

Lemma fold_resume_guard (js : list Job) :
  forall s,
    socket s = true ->
    js <> [] \/ (isAutoRunning s = true -> completeListeners s <> []) ->
    let s' := fold_left (fun s0 j => resume j s0) js s in
    microtasks s' = microtasks s
    /\ socket s' = true
    /\ (isAutoRunning s' = true -> completeListeners s' <> []).
Proof.
  induction js as [|j js IH]; intros s Hsock H; simpl.
  - destruct H as [H|H]; [congruence|]. auto.
  - destruct (resume_guard j s Hsock) as (Q & K & P).
    destruct (IH (resume j s) K (or_intror P)) as (Q' & K' & P').
    repeat split; auto. congruence.
Qed.

Lemma fold_handleComplete_microtasks (d : CompleteData) (os : list Observer) :
  forall s,
    microtasks (fold_left (fun s' o => handleComplete o d s') os s)
    = (microtasks s ++ map (job_of d) (filter (matches d) os))%list.
Proof.
  induction os as [|o os IH]; intros s; simpl.
  - now rewrite app_nil_r.
  - rewrite IH. unfold handleComplete, andThen. fold (matches d o).
    destruct (matches d o); simpl; [|reflexivity].
    now rewrite <- app_assoc.
Qed.

Lemma perform_guard_promise_free (pipeline : list Stage) (a : Action) (s : State) :
  promise_free a = true ->
  isAutoRunning (perform pipeline a s) = true -> isAutoRunning s = true.
Proof.
  destruct a as [|text| |stage| | | | |e]; simpl; try discriminate; intros _; auto.
  - unfold handleInputSubmit.
    destruct (negb (trim (currentInput s) =? "") && socket s
              && truthy (waitingForInput s)); auto.
    destruct (waitingForInput s); simpl; auto.
  - unfold executeStage. destruct (negb (socket s)); simpl; auto.
  - unfold shutdownAll, andThen.
    destruct (negb (socket s)); auto.
    destruct (length (runningIds (executionStates s)) =? 0)%nat; simpl; auto.
    discriminate.
  - unfold stopExecution, andThen.
    destruct (negb (socket s) || negb (truthy (selectedStage s))); auto.
    destruct (selectedStage s); simpl; auto.
  - destruct e; simpl; auto.
    rewrite (fold_handleComplete_frame isAutoRunning); auto.
    intros; apply handleComplete_frame.
Qed.

Lemma perform_socket_deliver (e : InEvent) (s : State) :
  socket (deliver e s) = socket s.
Proof.
  destruct e as [|j out ty|j p|j|d|j m|t]; simpl; auto.
  rewrite (fold_handleComplete_frame socket); auto.
  intros; apply handleComplete_frame.
Qed.

Lemma step_guard_inv (pipeline : list Stage) (a : Action) (s : State) :
  microtasks s = [] -> guard_inv s -> guard_inv (step pipeline a s).
Proof.
  intros Hq [HK HP].
  destruct (promise_free a) eqn:Ea.
  - rewrite step_promise_free by assumption.
    destruct (perform_promise_free pipeline a s Ea) as (L & _).
    split; rewrite L.
    + intros Hl. specialize (HK Hl).
      destruct a; try (rewrite perform_socket by discriminate; exact HK).
      reflexivity.
    + intros Ha. apply HP. now apply (perform_guard_promise_free pipeline a).
  - destruct a as [|text| |stage| | | | |e]; try discriminate.
    + unfold step, andThen. cbn [perform]. unfold startFullPipeline.
      destruct (socket s) eqn:Hsock; simpl.
      * destruct (isAutoRunning s) eqn:Hauto.
        { rewrite run_microtasks_id by assumption. split; auto. }
        unfold andThen, pipeline_loop, executeStageAndWait, executeStage, andThen.
        destruct pipeline as [|st r]; simpl.
        { rewrite run_microtasks_id by (simpl; assumption).
          split; simpl; auto; discriminate. }
        rewrite Hsock. simpl.
        rewrite run_microtasks_id by (simpl; assumption). split; simpl; auto.
        intros _ E. now apply app_eq_nil in E as [_ E].
      * rewrite run_microtasks_id by (simpl; assumption). split; simpl; auto.
        intros Hl. specialize (HK Hl). discriminate.
    + destruct e as [| | | |d| |]; try discriminate.
      unfold step, andThen. cbn [perform].
      destruct (existsb (matches d) (completeListeners s)) eqn:Em.
      * assert (Hne : completeListeners s <> []).
        { intros E. rewrite E in Em. discriminate. }
        set (s1 := deliver (execution_complete d) s).
        assert (K1 : socket s1 = true).
        { unfold s1. rewrite perform_socket_deliver. auto. }
        assert (Q1 : microtasks s1 <> []).
        { unfold s1. cbn [deliver]. rewrite fold_handleComplete_microtasks.
          simpl. rewrite Hq. simpl.
          destruct (filter (matches d) (completeListeners s)) as [|o l] eqn:Ef;
            [|discriminate].
          apply existsb_exists in Em as (o & Hin & Ho).
          assert (Hf : In o (filter (matches d) (completeListeners s)))
            by (apply filter_In; auto).
          rewrite Ef in Hf. contradiction. }
        unfold run_microtasks, andThen.
        assert (H1 : microtasks (run_queue s1) = [] /\ socket (run_queue s1) = true
                     /\ (isAutoRunning (run_queue s1) = true ->
                         completeListeners (run_queue s1) <> [])).
        { unfold run_queue.
          destruct (fold_resume_guard (microtasks s1) (take_microtasks s1))
            as (Q & K & P); auto. }
        destruct H1 as (Q2 & K2 & P2).
        rewrite (run_queue_id _ Q2). split; auto.
      * cbn [deliver]. rewrite fold_handleComplete_none by assumption.
        rewrite run_microtasks_id by (simpl; assumption).
        split; simpl; auto.
Qed.

(** X18. In every reachable state in which the guard [isAutoRunning] is
    set, there is a socket and some observer is registered: the guard is
    never left on by a run that has ended. *)
Theorem guard_only_while_awaiting (pipeline : list Stage) (tr : list Action) :
  let s := run pipeline tr initialState in
  isAutoRunning s = true ->
  completeListeners s <> [] /\ socket s = true.
Proof.
  intros s Hauto.
  assert (H : guard_inv s).
  { subst s. clear Hauto. induction tr as [|a tr IH] using rev_ind.
    - split; simpl; [congruence|discriminate].
    - rewrite run_snoc. apply step_guard_inv; auto.
      apply run_drained. reflexivity. }
  destruct H as [HK HP]. split; auto.
Qed.

Lemma guard_only_while_awaiting_witness :
  let tr := [Mount; ClickStartAll; Receive (execution_started "get-scripts");
             Receive (execution_complete (mkComplete "get-scripts" "success"))] in
  let s := run pipelineStages tr initialState in
  isAutoRunning s = true /\ completeListeners s <> [].
Proof.
  intros tr s. split; [reflexivity|].
  exact (proj1 (guard_only_while_awaiting pipelineStages tr eq_refl)).
Defined.

(** ** Clear *)

(** X19. [clearLogs] empties the log and the store and nothing else:
    observers, guard, selection and pending request stay.  Stages that
    were running are forgotten, so "Shutdown All" is disabled right after
    and [shutdownAll] emits nothing; the next output event of a
    forgotten stage recreates its entry as running with progress 5. *)
Theorem clearLogs_forgets (pipeline : list Stage) (s : State)
        (i out ty : string) :
  socket s = true ->
  microtasks s = [] ->
  let s1 := step pipeline ClickClear s in
  logs s1 = [] /\ executionStates s1 = []
  /\ completeListeners s1 = completeListeners s
  /\ isAutoRunning s1 = isAutoRunning s
  /\ selectedStage s1 = selectedStage s
  /\ waitingForInput s1 = waitingForInput s
  /\ shutdownAll_disabled s1 = true
  /\ emitted (step pipeline ClickShutdownAll s1) = emitted s
  /\ obj_get (executionStates (step pipeline (Receive (script_output i out ty)) s1)) i
     = Some (mkES 5 running).
Proof.
  intros Hsock Hq s1.
  assert (E1 : s1 = clearLogs s) by (subst s1; now rewrite step_promise_free).
  rewrite E1. unfold clearLogs, andThen.
  repeat split.
  - rewrite step_promise_free by (simpl; auto). cbn [perform].
    unfold shutdownAll. simpl. now rewrite Hsock.
  - rewrite step_executionStates. simpl. now rewrite String.eqb_refl.
Qed.

Lemma clearLogs_forgets_witness :
  let s := run pipelineStages
             [Mount; Receive (execution_started "image-generator");
              Receive (script_output "image-generator" "1/40" "info")] initialState in
  let s1 := step pipelineStages ClickClear s in
  anyRunning s = true
  /\ shutdownAll_disabled s1 = true
  /\ emitted (step pipelineStages ClickShutdownAll s1) = [].
Proof.
  intros s s1.
  pose proof (clearLogs_forgets pipelineStages s "image-generator" "2/40" "info"
                eq_refl eq_refl) as H.
  cbv zeta in H. destruct H as (_ & _ & _ & _ & _ & _ & Hd & He & _).
  split; [reflexivity|]. split; [exact Hd|exact He].
Defined.

(** ** Log colours *)

(** X20. [getLogColor] gives the five named entry types five different
    colours, all different from the default colour, and gives the default
    colour to every other type ([info] among them). *)
Theorem getLogColor_classes (ty : string) :
  let named := ["error"; "success"; "system"; "input"; "user"] in
  NoDup (map getLogColor named)
  /\ ~ In "#d1d5db" (map getLogColor named)
  /\ (In ty named <-> getLogColor ty <> "#d1d5db").
Proof.
  intros named. split; [|split].
  - simpl. repeat constructor; simpl; intuition discriminate.
  - simpl. intuition discriminate.
  - unfold getLogColor. split.
    + intros [<-|[<-|[<-|[<-|[<-|[]]]]]]; simpl; discriminate.
    + destruct (String.eqb_spec ty "error"); [subst; simpl; auto|].
      destruct (String.eqb_spec ty "success"); [subst; simpl; auto|].
      destruct (String.eqb_spec ty "system"); [subst; simpl; auto|].
      destruct (String.eqb_spec ty "input"); [subst; simpl; auto|].
      destruct (String.eqb_spec ty "user"); [subst; simpl; auto 6|].
      congruence.
Qed.

(** ** Several observers for one stage *)

(** X21. In a reachable state, one [execution_complete] detaches every
    observer awaiting the stage of the event and resolves their promises
    in registration order, all before any of the awaiting loops is
    resumed; the observers of other stages stay registered, in order. *)
Theorem complete_resolves_all_awaiting (pipeline : list Stage)
        (tr : list Action) (d : CompleteData) :
  let s := run pipeline tr initialState in
  let s' := deliver (execution_complete d) s in
  completeListeners s' = filter (fun o => negb (matches d o)) (completeListeners s)
  /\ resolved s'
     = (resolved s ++ map obs_promise (filter (matches d) (completeListeners s)))%list
  /\ microtasks s' = map (job_of d) (filter (matches d) (completeListeners s))
  /\ emitted s' = emitted s.
Proof.
  intros s s'.
  assert (HI : Inv s) by (apply run_Inv, Inv_initialState).
  assert (Hq : microtasks s = []) by (apply run_drained; reflexivity).
  destruct (deliver_complete_spec d s (inv_listening_nodup s HI)) as (A & B & C & _).
  fold s' in A, B, C. rewrite Hq in C.
  repeat split; auto.
  subst s'. cbn [deliver]. rewrite (fold_handleComplete_frame emitted); auto.
  intros; apply handleComplete_frame.
Qed.
